(** * visualize_stability.py: extraction of "step,weight" pairs, trend
    verdict and report.

    The script reads [raw_output.txt], keeps the lines of the form
    [digits,digits], fits a line through the pairs, draws a chart and prints
    a verdict.  This development embeds [parse_data] and [main] and proves
    the properties stated about them.

    Conventions of the embedding.
    - A Python [str] is a [list ascii]: the text after decoding, restricted
      to code points below 256.  On that range [\d] is ['0'..'9'] and the
      white space of [str.strip] is the set given by [isspace].
    - A Python [int] is a [Z].  [int(s)] refuses a literal of more than
      4300 digits, the default of [sys.int_info], and the conversion of an
      [int] to a [float] raises when the value is out of range.
    - A Python [float] is a binary64 value, a [spec_float] with precision 53
      and maximal exponent 1024.
    - An exception is a value of [exn]; code that can raise returns
      [exn + A]. *)

From Stdlib Require Import Ascii String List ZArith QArith Qabs Bool Lia.
From Stdlib Require Import Floats.SpecFloat.
Import ListNotations.
Local Open Scope Z_scope.

(** ** Strings *)

Definition str := list ascii.

Definition lit (s : string) : str := list_ascii_of_string s.

Definition LF : ascii := "010"%char.
Definition CR : ascii := "013"%char.
Definition comma : ascii := ","%char.

(** [str.isspace] on one character (code points below 256): tab, line feed,
    vertical tab, form feed, carriage return, the separators 28 to 31,
    space, NEL (133) and the no-break space (160). *)
Definition isspace (c : ascii) : bool :=
  let n := N_of_ascii c in
  ((9 <=? n) && (n <=? 13))%N || ((28 <=? n) && (n <=? 32))%N
  || (n =? 133)%N || (n =? 160)%N.

(** [\d], and the digits [int] accepts. *)
Definition isdigit (c : ascii) : bool :=
  let n := N_of_ascii c in ((48 <=? n) && (n <=? 57))%N.

Fixpoint lstrip (s : str) : str :=
  match s with
  | c :: s' => if isspace c then lstrip s' else s
  | [] => []
  end.

Definition rstrip (s : str) : str := rev (lstrip (rev s)).

(** [s.strip()] *)
Definition strip (s : str) : str := rstrip (lstrip s).

(** ** Reading the file line by line *)

(** Text mode with the default [newline=None]: ["\r\n"] and a lone ["\r"]
    are handed to the program as ["\n"]. *)
Fixpoint universal_newlines (s : str) : str :=
  match s with
  | [] => []
  | c :: rest =>
      if Ascii.eqb c CR then
        LF :: match rest with
              | c' :: rest' =>
                  if Ascii.eqb c' LF then universal_newlines rest'
                  else universal_newlines rest
              | [] => []
              end
      else c :: universal_newlines rest
  end.

(** [for line in f]: each line keeps its terminating ["\n"]; a last line
    without terminator is yielded when it is not empty.  [cur] holds the
    characters of the line being read. *)
Fixpoint lines_from (cur : str) (s : str) : list str :=
  match s with
  | [] => match cur with [] => [] | _ => [cur] end
  | c :: rest =>
      if Ascii.eqb c LF then (cur ++ [LF]) :: lines_from [] rest
      else lines_from (cur ++ [c]) rest
  end.

Definition file_lines (content : str) : list str :=
  lines_from [] (universal_newlines content).

(** ** The regular expression *)

(** The fragment of [re] the script uses: anchors, one character, and
    [+] applied to a one-character atom. *)
Inductive atom :=
| AChar (c : ascii)     (* a literal character *)
| ADigit.               (* \d *)

Inductive node :=
| NBol                  (* ^ *)
| NEol                  (* $ *)
| NOne (a : atom)       (* a *)
| NPlus (a : atom).     (* a+ *)

Definition regex := list node.

Definition atom_ok (a : atom) (c : ascii) : bool :=
  match a with
  | AChar c' => Ascii.eqb c c'
  | ADigit => isdigit c
  end.

(** Without [re.MULTILINE], [$] holds at the end of the string and just
    before a line feed that ends the string. *)
Definition at_eol (s : str) : bool :=
  match s with
  | [] => true
  | [c] => Ascii.eqb c LF
  | _ => false
  end.

(** Backtracking matcher: does [r] match a prefix of [s]?  [bos] says that
    [s] starts at the beginning of the subject, which is what [^] tests. *)
Fixpoint match_here (r : regex) (bos : bool) (s : str) {struct r} : bool :=
  match r with
  | [] => true
  | NBol :: r' => bos && match_here r' bos s
  | NEol :: r' => at_eol s && match_here r' bos s
  | NOne a :: r' =>
      match s with
      | c :: s' => atom_ok a c && match_here r' false s'
      | [] => false
      end
  | NPlus a :: r' =>
      (fix plus (s : str) : bool :=
         match s with
         | c :: s' => atom_ok a c && (plus s' || match_here r' false s')
         | [] => false
         end) s
  end.

(** [re.match(r, s)] as a truth value. *)
Definition re_match (r : regex) (s : str) : bool := match_here r true s.

(** [r'^\d+,\d+$'] *)
Definition pattern : regex :=
  [NBol; NPlus ADigit; NOne (AChar comma); NPlus ADigit; NEol].

(** ** Exceptions and the builtins used by the script *)

Inductive exn :=
| ValueError (msg : string)
| IndexError (msg : string)
| OverflowError (msg : string)
| InsufficientDataError
| DegenerateRegressionError.

Definition result (A : Type) : Type := exn + A.

Definition bind_result {A B} (x : result A) (k : A -> result B) : result B :=
  match x with
  | inl e => inl e
  | inr a => k a
  end.

Declare Scope result_scope.
Delimit Scope result_scope with result.
Notation "x <- c ;; k" := (bind_result c (fun x => k))
  (at level 61, c at next level, right associativity) : result_scope.

(** [s.split(sep)] for a one-character separator; [cur] is the field being
    read. *)
Fixpoint split_from (sep : ascii) (cur : str) (s : str) : list str :=
  match s with
  | [] => [cur]
  | c :: rest =>
      if Ascii.eqb c sep then cur :: split_from sep [] rest
      else split_from sep (cur ++ [c]) rest
  end.

Definition split (sep : ascii) (s : str) : list str := split_from sep [] s.

(** [parts[i]] *)
Definition getitem {A} (l : list A) (i : nat) : result A :=
  match nth_error l i with
  | Some x => inr x
  | None => inl (IndexError "list index out of range")
  end.

Definition digit_val (c : ascii) : Z := Z.of_N (N_of_ascii c) - 48.

(** The digits of an integer literal after the first one: digits, with
    single underscores allowed between two digits. *)
Fixpoint int_digits (acc : Z) (after_underscore : bool) (s : str) : option Z :=
  match s with
  | [] => if after_underscore then None else Some acc
  | c :: s' =>
      if Ascii.eqb c "_"%char then
        if after_underscore then None else int_digits acc true s'
      else if isdigit c then int_digits (10 * acc + digit_val c) false s'
      else None
  end.

Definition int_unsigned (s : str) : option Z :=
  match s with
  | c :: s' => if isdigit c then int_digits (digit_val c) false s' else None
  | [] => None
  end.

(** [sys.int_info.default_max_str_digits]: the greatest number of digits
    [int] converts. *)
Definition int_max_str_digits : nat := 4300.

(** [int(s)] in base 10: surrounding white space, an optional sign, then
    the digits.  A well-formed literal with more digits than the limit
    (leading zeros count, underscores and the sign do not) is refused. *)
Definition int (s : str) : result Z :=
  let t := strip s in
  let r :=
    match t with
    | c :: t' =>
        if Ascii.eqb c "-"%char then option_map Z.opp (int_unsigned t')
        else if Ascii.eqb c "+"%char then int_unsigned t'
        else int_unsigned t
    | [] => None
    end in
  match r with
  | Some z =>
      if Nat.ltb int_max_str_digits (List.length (filter isdigit t))
      then inl (ValueError
                  "Exceeds the limit (4300 digits) for integer string conversion")
      else inr z
  | None => inl (ValueError "invalid literal for int() with base 10")
  end.

(** ** parse_data *)

(** The body of the loop of [parse_data], for one line of the file. *)
Definition parse_line (acc : list Z * list Z) (line : str)
  : result (list Z * list Z) :=
  let '(steps, weights) := acc in
  let line := strip line in
  if re_match pattern line then
    (let parts := split comma line in
     p0 <- getitem parts 0 ;;
     step <- int p0 ;;
     let steps := steps ++ [step] in
     p1 <- getitem parts 1 ;;
     weight <- int p1 ;;
     inr (steps, weights ++ [weight]))%result
  else inr (steps, weights).

Fixpoint parse_loop (acc : list Z * list Z) (lines : list str)
  : result (list Z * list Z) :=
  match lines with
  | [] => inr acc
  | line :: rest =>
      (acc' <- parse_line acc line ;; parse_loop acc' rest)%result
  end.

(** [parse_data(filename)], as a function of the content of the file. *)
Definition parse_data (content : str) : result (list Z * list Z) :=
  parse_loop ([], []) (file_lines content).

(** ** Floats *)

Definition float := spec_float.

Definition fadd : float -> float -> float := SFadd 53 1024.
Definition fsub : float -> float -> float := SFsub 53 1024.
Definition fmul : float -> float -> float := SFmul 53 1024.
Definition fdiv : float -> float -> float := SFdiv 53 1024.

(** The binary64 value nearest to an integer, ties to even; an infinity
    when the integer is out of range. *)
Definition nearest_float (z : Z) : float := binary_normalize 53 1024 z 0 false.

(** Conversion of an [int] to a [float], as in [slope * x] with [x] an
    [int]: it raises when the [int] is too large. *)
Definition float_of_int (z : Z) : result float :=
  match nearest_float z with
  | S754_infinity _ => inl (OverflowError "int too large to convert to float")
  | f => inr f
  end.

(** A list comprehension whose body can raise: the first exception ends
    it. *)
Fixpoint map_result {A B} (f : A -> result B) (l : list A) : result (list B) :=
  match l with
  | [] => inr []
  | x :: l' =>
      match f x with
      | inl e => inl e
      | inr y =>
          match map_result f l' with
          | inl e => inl e
          | inr ys => inr (y :: ys)
          end
      end
  end.

(** The conversion of plotted data to floats. *)
Definition to_floats (l : list Z) : result (list float) :=
  map_result float_of_int l.

(** The literal [0.01]: the binary64 value nearest to 1/100, which is
    5764607523034235 * 2^-59. *)
Definition f0_01 : float := S754_finite false 5764607523034235 (-59).

(** The binary64 value nearest to 99/10000. *)
Definition f0_0099 : float := S754_finite false 5706961447803893 (-59).

Definition fzero : float := S754_zero false.
Definition fone : float := S754_finite false 4503599627370496 (-52).

(** The rational number a finite float stands for. *)
Definition Q_of_finite (s : bool) (m : positive) (e : Z) : Q :=
  let num := if s then Zneg m else Zpos m in
  match e with
  | Z0 => num # 1
  | Zpos p => (num * Zpos (2 ^ p)) # 1
  | Zneg p => num # (2 ^ p)
  end.

Definition Q_of_float (x : float) : option Q :=
  match x with
  | S754_zero _ => Some 0%Q
  | S754_finite s m e => Some (Q_of_finite s m e)
  | S754_infinity _ | S754_nan => None
  end.

(** ** Processes: standard output, chart commands, exit *)

(** The pieces of a printed line or of a label: literal text, an [int]
    formatted by [str], a [float] formatted by [repr] or with a fixed
    number of decimals. *)
Inductive frag :=
| FStr (s : string)
| FInt (n : Z)
| FFloat (x : float)
| FFixed (decimals : nat) (x : float).

Inductive event :=
| Print (line : list frag)
| PltFigure (width height : Z)
| PltPlot (xs ys : list Z) (label color : string)
| PltScatter (xs ys : list Z) (color : string)
| PltPlotTrend (xs : list Z) (ys : list float) (color : string)
    (label : list frag)
| PltTitle (s : string)
| PltXlabel (s : string)
| PltYlabel (s : string)
| PltLegend
| PltGrid
| PltText (x : Q) (y : Z) (s : string) (color : string)
| PltSavefig (file : string) (dpi : Z).

(** How a run ends when it does not reach the end of [main]. *)
Inductive stop :=
| SysExit (code : Z)
| Uncaught (e : exn).

(** A computation emits events and then either stops or yields a value. *)
Definition run (A : Type) : Type := list event * (stop + A).

Definition ret {A} (a : A) : run A := ([], inr a).

Definition bind {A B} (c : run A) (k : A -> run B) : run B :=
  match c with
  | (evs, inl s) => (evs, inl s)
  | (evs, inr a) => let '(evs', r) := k a in (evs ++ evs', r)
  end.

Declare Scope run_scope.
Delimit Scope run_scope with run.
Notation "x <- c ;; k" := (bind c (fun x => k))
  (at level 61, c at next level, right associativity) : run_scope.
Notation "c ;; k" := (bind c (fun _ => k))
  (at level 61, right associativity) : run_scope.

Definition emit (e : event) : run unit := ([e], inr tt).
Definition print (line : list frag) : run unit := emit (Print line).
Definition sys_exit {A} (code : Z) : run A := ([], inl (SysExit code)).

(** A builtin that raises, called without [try]. *)
Definition call {A} (r : result A) : run A :=
  match r with
  | inl e => ([], inl (Uncaught e))
  | inr a => ([], inr a)
  end.

Definition events {A} (c : run A) : list event := fst c.

Definition is_print (e : event) : option (list frag) :=
  match e with
  | Print l => Some l
  | _ => None
  end.

Fixpoint stdout_of (evs : list event) : list (list frag) :=
  match evs with
  | [] => []
  | e :: evs' =>
      match is_print e with
      | Some l => l :: stdout_of evs'
      | None => stdout_of evs'
      end
  end.

(** What the process wrote to standard output, line by line. *)
Definition stdout {A} (c : run A) : list (list frag) := stdout_of (events c).

(** The exit status: 0 when [main] returns, the argument of [sys.exit];
    the status after an uncaught exception is left to the interpreter. *)
Definition exit_code (c : run unit) : option Z :=
  match snd c with
  | inr tt => Some 0
  | inl (SysExit n) => Some n
  | inl (Uncaught _) => None
  end.

(** [max(l)] *)
Definition max (l : list Z) : result Z :=
  match l with
  | [] => inl (ValueError "max() arg is an empty sequence")
  | x :: l' => inr (fold_left Z.max l' x)
  end.

(** [min(l)] *)
Definition min (l : list Z) : result Z :=
  match l with
  | [] => inl (ValueError "min() arg is an empty sequence")
  | x :: l' => inr (fold_left Z.min l' x)
  end.

(** ** The verdict *)

Inductive Verdict := STABLE | GROWTH_DETECTED.

(** [abs(slope) < 0.01] *)
Definition abs_lt_threshold (slope : float) : bool :=
  SFltb (SFabs slope) f0_01.

Definition verdict (slope : float) : Verdict :=
  if abs_lt_threshold slope then STABLE else GROWTH_DETECTED.

Definition verdict_text (v : Verdict) : string :=
  match v with
  | STABLE => "CONCLUSION: STABLE RECURSION"
  | GROWTH_DETECTED => "WARNING: ERROR GROWTH DETECTED"
  end.

Definition verdict_color (v : Verdict) : string :=
  match v with
  | STABLE => "green"
  | GROWTH_DETECTED => "red"
  end.

(** ** main *)

Definition output_file : string := "error_stability_proof.png".

(** [len(steps)/2]: true division of two [int]s, kept as the exact
    rational (the float is exact for every length below 2^53). *)
Definition half_len (steps : list Z) : Q := Z.of_nat (length steps) # 2.

(** [plt.plot(xs, ys, ...)] and [plt.scatter(xs, ys, ...)] on lists of
    [int]: the data are converted to floats, so a value too large for a
    float makes the call raise; [e] is the command recorded otherwise. *)
Definition plot_data (e : event) (xs ys : list Z) : run unit :=
  (_ <- call (to_floats xs) ;;
   _ <- call (to_floats ys) ;;
   emit e)%run.

Section Main.

(** [scipy.stats.linregress], restricted to the two components of its
    result that [main] reads (slope and intercept; [r_value], [p_value]
    and [std_err] are bound and never used). *)
Variable linregress : list Z -> list Z -> result (float * float).

(** Lines 51 to 58, the hypothesis check. *)
Definition hypothesis_check (steps weights : list Z) (slope : float)
  : run unit :=
  (if abs_lt_threshold slope then
     m <- call (max weights) ;;
     emit (PltText (half_len steps) (m + 1)
             "CONCLUSION: STABLE RECURSION" "green") ;;
     print [FStr "CONCLUSION: STABLE RECURSION"]
   else
     m <- call (max weights) ;;
     emit (PltText (half_len steps) (m + 1)
             "WARNING: ERROR GROWTH DETECTED" "red") ;;
     print [FStr "WARNING: ERROR GROWTH DETECTED"])%run.

Definition main (content : str) : run unit :=
  (print [FStr "Parsing data..."] ;;
   sw <- call (parse_data content) ;;
   let '(steps, weights) := sw in
   (match steps with
    | [] => print [FStr "No CSV data found in raw_output.txt"] ;;
            sys_exit 1
    | _ :: _ => ret tt
    end) ;;
   print [FStr "Found "; FInt (Z.of_nat (length steps));
          FStr " data points."] ;;
   emit (PltFigure 10 6) ;;
   plot_data (PltPlot steps weights "Hamming Weight (u)" "blue")
     steps weights ;;
   plot_data (PltScatter steps weights "blue") steps weights ;;
   si <- call (linregress steps weights) ;;
   let '(slope, intercept) := si in
   print [FStr "Slope: "; FFloat slope] ;;
   print [FStr "Intercept: "; FFloat intercept] ;;
   trend_y <- call (map_result
                      (fun x => (fx <- float_of_int x ;;
                                 inr (fadd (fmul slope fx) intercept))%result)
                      steps) ;;
   emit (PltPlotTrend steps trend_y "red"
           [FStr "Trend (slope="; FFixed 5 slope; FStr ")"]) ;;
   emit (PltTitle "Stability of Slack Variable u (Recursion Error)") ;;
   emit (PltXlabel "Recursion Step") ;;
   emit (PltYlabel "Hamming Weight") ;;
   emit PltLegend ;;
   emit PltGrid ;;
   hypothesis_check steps weights slope ;;
   emit (PltSavefig output_file 300) ;;
   print [FStr "Saved chart to "; FStr output_file])%run.

End Main.

(** ** The trend estimator *)

Definition fsum (l : list float) : float := fold_left fadd l fzero.

Definition fmean (l : list float) : float :=
  fdiv (fsum l) (nearest_float (Z.of_nat (length l))).

Fixpoint products (xs ys : list float) (mx my : float) : list float :=
  match xs, ys with
  | x :: xs', y :: ys' => fmul (fsub x mx) (fsub y my) :: products xs' ys' mx my
  | _, _ => []
  end.

(** The mean of the products of the deviations from the means. *)
Definition fcov (xs ys : list float) : float :=
  fmean (products xs ys (fmean xs) (fmean ys)).

(** Modelled from the spec: [linregress] belongs to scipy and is not part
    of the sources.  Section 4.2 of the specification gives its contract:
    it requires two sequences of the same length, at least 2, and must fail
    with an insufficient-data condition otherwise; a step sequence of zero
    variance is a degenerate regression; slope = covariance(x,y) /
    variance(x) and intercept = mean(y) - slope * mean(x).  Each operation
    is carried out in binary64, on the floats nearest to the integers. *)
Definition spec_linregress (steps weights : list Z) : result (float * float) :=
  if negb (Nat.eqb (length steps) (length weights))
     || Nat.ltb (length steps) 2
  then inl InsufficientDataError
  else
    let xs := map nearest_float steps in
    let ys := map nearest_float weights in
    let ssxm := fcov xs xs in
    if SFeqb ssxm fzero then inl DegenerateRegressionError
    else
      let slope := fdiv (fcov xs ys) ssxm in
      let intercept := fsub (fmean ys) (fmul slope (fmean xs)) in
      inr (slope, intercept).

(** Scenarios A and B of the specification. *)
Definition scenario_A : str := lit "5,10
6,10
7,10
8,10
".

Definition scenario_B : str := lit "1,1
2,2
3,3
4,4
".

(** * Vocabulary of the statements *)

(** ** What the pattern means *)

(** The reading of the pattern in words: one or more digits, a comma, one
    or more digits, and nothing else. *)
Definition digits_comma_digits (l : str) : Prop :=
  exists a b : str,
    l = a ++ comma :: b /\
    a <> [] /\ b <> [] /\
    forallb isdigit a = true /\ forallb isdigit b = true.

(** The value of a string of decimal digits. *)
Definition decimal (s : str) : Z :=
  fold_left (fun acc c => 10 * acc + digit_val c) s 0.

(** The longest prefix of digits of a string, and what follows it. *)
Fixpoint span_digits (s : str) : str * str :=
  match s with
  | c :: s' =>
      if isdigit c then let '(a, r) := span_digits s' in (c :: a, r)
      else ([], s)
  | [] => ([], [])
  end.

(** The same reading as a test. *)
Definition pair_line (l : str) : bool :=
  let '(a, r) := span_digits l in
  match a, r with
  | _ :: _, c :: (_ :: _) as b => Ascii.eqb c comma && forallb isdigit b
  | _, _ => false
  end.

(** The sample a line of that form denotes. *)
Definition sample_of (l : str) : Z * Z :=
  let '(a, r) := span_digits l in (decimal a, decimal (tl r)).

(** The stripped lines of the file that pass the guard of [parse_data]. *)
Definition retained (content : str) : list str :=
  filter (re_match pattern) (map strip (file_lines content)).

(** ** The matcher and the loop *)

(** The loop of [a+], with the rest of the expression as a continuation. *)
Definition plus_loop (a : atom) (k : str -> bool) : str -> bool :=
  fix plus (s : str) : bool :=
    match s with
    | c :: s' => atom_ok a c && (plus s' || k s')
    | [] => false
    end.

(** The stripped lines, among [lines], that pass the guard. *)
Definition kept (lines : list str) : list str :=
  filter (re_match pattern) (map strip lines).

(** The number of retained lines among the first [i] lines of the file:
    the index in the series of the sample of line [i], when it matches. *)
Definition rank (lines : list str) (i : nat) : nat :=
  List.length (kept (firstn i lines)).

(** A file with prose between two samples. *)
Definition order_sample : str := lit "log line
3,30
noise
4,40
".

(** ** The verdict and the report *)

(** The slope is a number of magnitude strictly below 1/100. *)
Definition below_threshold (slope : float) : Prop :=
  exists q : Q, Q_of_float slope = Some q /\ (Qabs q < 1 # 100)%Q.

(** The lines [main] prints. *)
Definition parsing_notice : list frag := [FStr "Parsing data..."].
Definition no_data_notice : list frag :=
  [FStr "No CSV data found in raw_output.txt"].
Definition count_line (steps : list Z) : list frag :=
  [FStr "Found "; FInt (Z.of_nat (List.length steps)); FStr " data points."].
Definition slope_line (slope : float) : list frag :=
  [FStr "Slope: "; FFloat slope].
Definition intercept_line (intercept : float) : list frag :=
  [FStr "Intercept: "; FFloat intercept].
Definition verdict_line (v : Verdict) : list frag := [FStr (verdict_text v)].
Definition saved_line : list frag :=
  [FStr "Saved chart to "; FStr output_file].

(** The chart commands that precede the regression. *)
Definition raw_plot (steps weights : list Z) : list event :=
  [PltFigure 10 6;
   PltPlot steps weights "Hamming Weight (u)" "blue";
   PltScatter steps weights "blue"].

(** The chart commands between the regression and the hypothesis check. *)
Definition trend_plot (steps : list Z) (slope intercept : float)
  : list event :=
  [PltPlotTrend steps
     (map (fun x => fadd (fmul slope (nearest_float x)) intercept) steps)
     "red" [FStr "Trend (slope="; FFixed 5 slope; FStr ")"];
   PltTitle "Stability of Slack Variable u (Recursion Error)";
   PltXlabel "Recursion Step";
   PltYlabel "Hamming Weight";
   PltLegend;
   PltGrid].

(** The label the hypothesis check puts on the chart. *)
Definition verdict_label (steps : list Z) (m : Z) (v : Verdict) : event :=
  PltText (half_len steps) (m + 1) (verdict_text v) (verdict_color v).

(** The run of [main] on a file without data. *)
Definition no_data_run : run unit :=
  ([Print parsing_notice; Print no_data_notice], inl (SysExit 1)).

(** Scenario C: a file in which no line matches. *)
Definition scenario_C : str := lit "hello
world
-1,2
1.5,3
".

(** A transcript with the path of the chart before the verdict. *)
Definition transcript_path_then_verdict
  (steps : list Z) (slope intercept : float) (v : Verdict)
  : list (list frag) :=
  [parsing_notice; count_line steps; slope_line slope;
   intercept_line intercept; saved_line; verdict_line v].

(** The transcript of the script: the verdict before the path of the
    chart. *)
Definition transcript
  (steps : list Z) (slope intercept : float) (v : Verdict)
  : list (list frag) :=
  [parsing_notice; count_line steps; slope_line slope;
   intercept_line intercept; verdict_line v; saved_line].

(** The positions of the text labels put on the chart. *)
Fixpoint label_positions (evs : list event) : list (Q * Z) :=
  match evs with
  | PltText x y _ _ :: evs' => (x, y) :: label_positions evs'
  | _ :: evs' => label_positions evs'
  | [] => []
  end.

(** The midpoint of the step range, halfway between the least and the
    greatest step. *)
Definition step_midpoint (steps : list Z) : result Q :=
  (lo <- min steps ;;
   hi <- max steps ;;
   inr ((lo + hi) # 2))%result.

(** A file whose steps are 10 and 20. *)
Definition gap_sample : str := lit "10,1
20,2
".

(** A file with a single sample. *)
Definition single_sample : str := lit "warming up
7,3
done
".

(** ** Limits of the conversions *)

(** The exception [int] raises on a literal that is too long. *)
Definition digit_limit_error : exn :=
  ValueError "Exceeds the limit (4300 digits) for integer string conversion".

(** Both fields of a line of the form digits, comma, digits have at most
    4300 digits. *)
Definition within_limit (l : str) : bool :=
  let '(a, r) := span_digits l in
  Nat.leb (List.length a) int_max_str_digits
  && Nat.leb (List.length (tl r)) int_max_str_digits.

(** The integer is in the range of a float. *)
Definition fits_float (z : Z) : bool :=
  match float_of_int z with
  | inr _ => true
  | inl _ => false
  end.

(** The exception raised on an integer out of the range of a float. *)
Definition overflow_error : exn :=
  OverflowError "int too large to convert to float".

(** Every step and every weight is in the range of a float. *)
Definition plottable (steps weights : list Z) : bool :=
  forallb fits_float steps && forallb fits_float weights.

(** A file whose only line has a first field of 4301 digits. *)
Definition long_field_sample : str := repeat "1"%char 4301 ++ lit ",1".

(** A file whose only line has a step of 400 digits, 10^400 - 1. *)
Definition huge_step_sample : str := repeat "9"%char 400 ++ lit ",1".

(** ** Vocabulary of the further properties *)

(** The digit zero. *)
Definition zero_char : ascii := "0"%char.

(** The same text with every line terminated by CR LF. *)
Fixpoint crlf (s : str) : str :=
  match s with
  | [] => []
  | c :: rest =>
      if Ascii.eqb c LF then CR :: LF :: crlf rest else c :: crlf rest
  end.

(** The same text with every line terminated by a lone CR. *)
Fixpoint cr_only (s : str) : str :=
  match s with
  | [] => []
  | c :: rest =>
      if Ascii.eqb c LF then CR :: cr_only rest else c :: cr_only rest
  end.

(** The chart commands that write the image. *)
Definition is_savefig (e : event) : bool :=
  match e with
  | PltSavefig _ _ => true
  | _ => false
  end.

(** * Properties *)

(** ** Sample runs *)

Example parse_data_mixed :
  parse_data (lit "Step,Weight
 12,7
hello 3,4
-1,2
1.5,3
007,0042
3,
13,8") = inr ([12; 7; 13], [7; 42; 8]).
Proof. vm_compute. reflexivity. Qed.

Example scenario_A_run :
  parse_data scenario_A = inr ([5; 6; 7; 8], [10; 10; 10; 10]) /\
  spec_linregress [5; 6; 7; 8] [10; 10; 10; 10] = inr (fzero, nearest_float 10) /\
  exit_code (main spec_linregress scenario_A) = Some 0.
Proof. vm_compute. auto. Qed.

(** ** Stripping *)

Lemma lstrip_head c t s : lstrip s = c :: t -> isspace c = false.
Proof.
  induction s as [|d s IH]; simpl; [discriminate|].
  destruct (isspace d) eqn:E; [exact IH|].
  intros H; injection H as -> _; exact E.
Qed.

Lemma lstrip_fixed c t : isspace c = false -> lstrip (c :: t) = c :: t.
Proof. intros H; simpl; now rewrite H. Qed.

Lemma strip_last p c s : strip s = p ++ [c] -> isspace c = false.
Proof.
  unfold strip, rstrip; intros H.
  apply (f_equal (@rev ascii)) in H.
  rewrite rev_involutive, rev_app_distr in H; simpl in H.
  exact (lstrip_head _ _ _ H).
Qed.

Lemma digit_not_space c : isdigit c = true -> isspace c = false.
Proof.
  unfold isdigit, isspace; intros H.
  apply andb_true_iff in H; destruct H as [H1 H2].
  apply N.leb_le in H1, H2.
  repeat (apply orb_false_iff; split);
    try (apply andb_false_iff);
    try (apply N.eqb_neq; lia).
  - right; apply N.leb_gt; lia.
  - right; apply N.leb_gt; lia.
Qed.

Lemma digit_not_char c (d : ascii) :
  isdigit d = false -> isdigit c = true -> Ascii.eqb c d = false.
Proof.
  intros Hd Hc; destruct (Ascii.eqb c d) eqn:E; [|reflexivity].
  apply Ascii.eqb_eq in E; subst; congruence.
Qed.

Lemma forallb_rev {A} (f : A -> bool) l :
  forallb f (rev l) = forallb f l.
Proof.
  induction l as [|x l IH]; simpl; [reflexivity|].
  rewrite forallb_app, IH; simpl; rewrite andb_true_r; apply andb_comm.
Qed.

(** A non-empty string of digits is untouched by [strip]. *)
Lemma strip_digits a :
  a <> [] -> forallb isdigit a = true -> strip a = a.
Proof.
  intros Hne Hd; unfold strip, rstrip.
  destruct a as [|c t]; [congruence|].
  simpl in Hd; apply andb_true_iff in Hd; destruct Hd as [Hc Ht].
  rewrite (lstrip_fixed c t (digit_not_space c Hc)).
  assert (Hr : forallb isdigit (rev (c :: t)) = true)
    by (rewrite forallb_rev; simpl; now rewrite Hc, Ht).
  destruct (rev (c :: t)) as [|d u] eqn:E.
  - apply (f_equal (@rev ascii)) in E; rewrite rev_involutive in E.
    discriminate.
  - simpl in Hr; apply andb_true_iff in Hr; destruct Hr as [Hdd _].
    rewrite (lstrip_fixed d u (digit_not_space d Hdd)), <- E.
    apply rev_involutive.
Qed.

(** ** The matcher *)

Lemma match_here_plus a r bos s :
  match_here (NPlus a :: r) bos s = plus_loop a (match_here r false) s.
Proof. reflexivity. Qed.

Lemma plus_loop_spec a k s :
  plus_loop a k s = true <->
  exists p q, s = p ++ q /\ p <> [] /\
              forallb (atom_ok a) p = true /\ k q = true.
Proof.
  induction s as [|c s IH].
  - simpl; split; [discriminate|].
    intros (p & q & E & Hp & _).
    destruct p; [congruence | discriminate].
  - simpl; rewrite andb_true_iff, orb_true_iff, IH; split.
    + intros [Hc [(p & q & E & Hp & Hall & Hk) | Hk]].
      * exists (c :: p), q; subst; simpl; rewrite Hc, Hall.
        repeat split; auto; discriminate.
      * exists [c], s; simpl; rewrite Hc.
        repeat split; auto; discriminate.
    + intros (p & q & E & Hp & Hall & Hk).
      destruct p as [|c' p]; [congruence|].
      simpl in E; injection E as -> ->.
      simpl in Hall; apply andb_true_iff in Hall; destruct Hall as [Hc Hall].
      split; [exact Hc|].
      destruct p as [|c'' p]; [right; exact Hk|].
      left; exists (c'' :: p), q; repeat split; auto; discriminate.
Qed.

Lemma at_eol_spec s : at_eol s = true <-> s = [] \/ s = [LF].
Proof.
  destruct s as [|c [|d s]]; simpl; split; auto.
  - intros H; apply Ascii.eqb_eq in H; subst; auto.
  - intros [H|H]; [discriminate|].
    injection H as ->; apply Ascii.eqb_refl.
  - discriminate.
  - intros [H|H]; discriminate.
Qed.

(** The guard on an arbitrary string: the pattern, possibly followed by one
    final line feed. *)
Lemma re_match_pattern_spec s :
  re_match pattern s = true <->
  exists a b t, s = a ++ comma :: b ++ t /\
                a <> [] /\ b <> [] /\
                forallb isdigit a = true /\ forallb isdigit b = true /\
                (t = [] \/ t = [LF]).
Proof.
  unfold re_match, pattern.
  change (match_here (NBol :: ?r) true s) with (true && match_here r true s).
  rewrite andb_true_l, match_here_plus, plus_loop_spec; split.
  - intros (a & q & -> & Ha & Hda & Hk).
    destruct q as [|c q]; [discriminate|].
    change (match_here (NOne (AChar comma) :: ?r) false (c :: q))
      with (Ascii.eqb c comma && match_here r false q) in Hk.
    apply andb_true_iff in Hk; destruct Hk as [Hc Hk].
    apply Ascii.eqb_eq in Hc; subst c.
    rewrite match_here_plus in Hk; apply plus_loop_spec in Hk.
    destruct Hk as (b & t & -> & Hb & Hdb & Hk).
    change (match_here [NEol] false t) with (at_eol t && true) in Hk.
    rewrite andb_true_r in Hk; apply at_eol_spec in Hk.
    exists a, b, t; repeat split; auto.
  - intros (a & b & t & -> & Ha & Hb & Hda & Hdb & Ht).
    exists a, (comma :: b ++ t); repeat split; auto.
    change (match_here (NOne (AChar comma) :: ?r) false (comma :: ?q))
      with (Ascii.eqb comma comma && match_here r false q).
    rewrite Ascii.eqb_refl, andb_true_l, match_here_plus.
    apply plus_loop_spec; exists b, t; repeat split; auto.
    change (match_here [NEol] false t) with (at_eol t && true).
    rewrite andb_true_r; apply at_eol_spec; exact Ht.
Qed.

(** On a stripped line the guard is exactly the pattern in words. *)
Lemma guard_iff_pattern line :
  re_match pattern (strip line) = true <-> digits_comma_digits (strip line).
Proof.
  rewrite re_match_pattern_spec; split.
  - intros (a & b & t & E & Ha & Hb & Hda & Hdb & [-> | ->]).
    + rewrite app_nil_r in E; exists a, b; auto.
    + exfalso.
      assert (H : strip line = (a ++ comma :: b) ++ [LF])
        by (rewrite E, <- app_assoc; reflexivity).
      apply strip_last in H; discriminate.
  - intros (a & b & E & Ha & Hb & Hda & Hdb).
    exists a, b, []; rewrite app_nil_r; auto 10.
Qed.

Lemma span_digits_app a c b :
  forallb isdigit a = true -> isdigit c = false ->
  span_digits (a ++ c :: b) = (a, c :: b).
Proof.
  intros Ha Hc; induction a as [|d a IH]; simpl.
  - now rewrite Hc.
  - simpl in Ha; apply andb_true_iff in Ha; destruct Ha as [Hd Ha].
    now rewrite Hd, (IH Ha).
Qed.

Lemma span_digits_sound s a r :
  span_digits s = (a, r) -> s = a ++ r /\ forallb isdigit a = true.
Proof.
  revert a r; induction s as [|c s IH]; simpl; intros a r H.
  - injection H as <- <-; auto.
  - destruct (isdigit c) eqn:Hc.
    + destruct (span_digits s) as [a' r'] eqn:E.
      injection H as <- <-.
      destruct (IH _ _ eq_refl) as [-> Ha'].
      simpl; now rewrite Hc.
    + injection H as <- <-; auto.
Qed.

Lemma comma_not_digit : isdigit comma = false.
Proof. reflexivity. Qed.

Lemma pair_line_spec l : pair_line l = true <-> digits_comma_digits l.
Proof.
  unfold pair_line; split.
  - destruct (span_digits l) as [a r] eqn:E.
    apply span_digits_sound in E; destruct E as [-> Ha].
    destruct a as [|x a]; [discriminate|].
    destruct r as [|c [|y b]]; try discriminate.
    intros H; apply andb_true_iff in H; destruct H as [Hc Hb].
    apply Ascii.eqb_eq in Hc; subst c.
    exists (x :: a), (y :: b); repeat split; auto; discriminate.
  - intros (a & b & -> & Ha & Hb & Hda & Hdb).
    rewrite (span_digits_app a comma b Hda comma_not_digit).
    destruct a as [|x a]; [congruence|].
    destruct b as [|y b]; [congruence|].
    now rewrite Ascii.eqb_refl, Hdb.
Qed.

Lemma sample_of_pair a b :
  forallb isdigit a = true ->
  sample_of (a ++ comma :: b) = (decimal a, decimal b).
Proof.
  intros Ha; unfold sample_of.
  now rewrite (span_digits_app a comma b Ha comma_not_digit).
Qed.

(** ** split and int on the fields of a matching line *)

Lemma split_from_field sep cur a rest :
  forallb (fun c => negb (Ascii.eqb c sep)) a = true ->
  split_from sep cur (a ++ rest) = split_from sep (cur ++ a) rest.
Proof.
  revert cur; induction a as [|c a IH]; simpl; intros cur H.
  - now rewrite app_nil_r.
  - apply andb_true_iff in H; destruct H as [Hc Ha].
    apply negb_true_iff in Hc; rewrite Hc, (IH _ Ha), <- app_assoc.
    reflexivity.
Qed.

Lemma digits_no_comma a :
  forallb isdigit a = true ->
  forallb (fun c => negb (Ascii.eqb c comma)) a = true.
Proof.
  intros H; apply forallb_forall; intros c Hc.
  rewrite forallb_forall in H.
  now rewrite (digit_not_char c comma comma_not_digit (H c Hc)).
Qed.

Lemma split_pair a b :
  forallb isdigit a = true -> forallb isdigit b = true ->
  split comma (a ++ comma :: b) = [a; b].
Proof.
  intros Ha Hb; unfold split.
  rewrite (split_from_field comma [] a _ (digits_no_comma a Ha)); simpl.
  rewrite <- (app_nil_r b) at 1.
  rewrite (split_from_field comma [] b [] (digits_no_comma b Hb)).
  reflexivity.
Qed.

Lemma int_digits_all acc s :
  forallb isdigit s = true ->
  int_digits acc false s =
  Some (fold_left (fun acc c => 10 * acc + digit_val c) s acc).
Proof.
  revert acc; induction s as [|c s IH]; simpl; intros acc H; [reflexivity|].
  apply andb_true_iff in H; destruct H as [Hc Hs].
  rewrite (digit_not_char c "_"%char eq_refl Hc), Hc.
  apply IH; exact Hs.
Qed.

Lemma filter_all {A} (f : A -> bool) l :
  forallb f l = true -> filter f l = l.
Proof.
  induction l as [|x l IH]; simpl; [reflexivity|].
  intros H; apply andb_true_iff in H; destruct H as [Hx Hl].
  now rewrite Hx, (IH Hl).
Qed.

(** [int] on a non-empty string of digits: its decimal value when the
    string is within the limit, the limit error otherwise. *)
Lemma int_digits_ok a :
  a <> [] -> forallb isdigit a = true ->
  int a = if Nat.leb (List.length a) int_max_str_digits
          then inr (decimal a) else inl digit_limit_error.
Proof.
  intros Hne Hd; unfold int; rewrite (strip_digits a Hne Hd).
  rewrite (filter_all isdigit a Hd), Nat.ltb_antisym.
  destruct a as [|c t]; [congruence|].
  simpl in Hd; apply andb_true_iff in Hd; destruct Hd as [Hc Ht].
  rewrite (digit_not_char c "-"%char eq_refl Hc).
  rewrite (digit_not_char c "+"%char eq_refl Hc).
  unfold int_unsigned; rewrite Hc, (int_digits_all _ t Ht).
  destruct (Nat.leb (List.length (c :: t)) int_max_str_digits); reflexivity.
Qed.

Lemma within_limit_pair a b :
  forallb isdigit a = true ->
  within_limit (a ++ comma :: b) =
  Nat.leb (List.length a) int_max_str_digits
  && Nat.leb (List.length b) int_max_str_digits.
Proof.
  intros Ha; unfold within_limit.
  now rewrite (span_digits_app a comma b Ha comma_not_digit).
Qed.

(** ** The loop of parse_data *)

Lemma parse_line_match steps weights line :
  re_match pattern (strip line) = true ->
  parse_line (steps, weights) line =
  if within_limit (strip line)
  then inr (steps ++ [fst (sample_of (strip line))],
            weights ++ [snd (sample_of (strip line))])
  else inl digit_limit_error.
Proof.
  intros G; unfold parse_line; rewrite G.
  apply guard_iff_pattern in G.
  destruct G as (a & b & E & Ha & Hb & Hda & Hdb).
  rewrite E, (split_pair a b Hda Hdb), (sample_of_pair a b Hda),
    (within_limit_pair a b Hda).
  cbn [getitem nth_error bind_result fst snd].
  rewrite (int_digits_ok a Ha Hda), (int_digits_ok b Hb Hdb).
  destruct (Nat.leb (List.length a) int_max_str_digits);
    destruct (Nat.leb (List.length b) int_max_str_digits); reflexivity.
Qed.

Lemma parse_line_skip steps weights line :
  re_match pattern (strip line) = false ->
  parse_line (steps, weights) line = inr (steps, weights).
Proof. intros G; unfold parse_line; now rewrite G. Qed.

Lemma parse_loop_spec lines : forall steps weights,
  parse_loop (steps, weights) lines =
  if forallb within_limit (kept lines)
  then inr (steps ++ map (fun l => fst (sample_of l)) (kept lines),
            weights ++ map (fun l => snd (sample_of l)) (kept lines))
  else inl digit_limit_error.
Proof.
  unfold kept; induction lines as [|line rest IH]; intros steps weights.
  - simpl; now rewrite !app_nil_r.
  - cbn [parse_loop map filter].
    destruct (re_match pattern (strip line)) eqn:G.
    + rewrite (parse_line_match _ _ _ G); cbn [forallb map].
      destruct (within_limit (strip line)); cbn [bind_result andb];
        [|reflexivity].
      rewrite IH, <- !app_assoc; reflexivity.
    + rewrite (parse_line_skip _ _ _ G); cbn [bind_result]; apply IH.
Qed.

Lemma parse_data_spec content :
  parse_data content =
  if forallb within_limit (retained content)
  then inr (map (fun l => fst (sample_of l)) (retained content),
            map (fun l => snd (sample_of l)) (retained content))
  else inl digit_limit_error.
Proof. unfold parse_data; now rewrite parse_loop_spec. Qed.

(** What a result of [parse_data] tells. *)
Lemma parse_data_inr content steps weights :
  parse_data content = inr (steps, weights) ->
  forallb within_limit (retained content) = true /\
  steps = map (fun l => fst (sample_of l)) (retained content) /\
  weights = map (fun l => snd (sample_of l)) (retained content).
Proof.
  rewrite parse_data_spec.
  destruct (forallb within_limit (retained content)); [|discriminate].
  intros H; injection H as <- <-; auto.
Qed.

Lemma parse_data_within content :
  forallb within_limit (retained content) = true ->
  parse_data content =
  inr (map (fun l => fst (sample_of l)) (retained content),
       map (fun l => snd (sample_of l)) (retained content)).
Proof. intros H; now rewrite parse_data_spec, H. Qed.

Lemma retained_filter content :
  retained content = filter pair_line (map strip (file_lines content)).
Proof.
  unfold retained; apply filter_ext_in; intros l Hl.
  apply in_map_iff in Hl; destruct Hl as (line & <- & _).
  destruct (pair_line (strip line)) eqn:P.
  - apply guard_iff_pattern, pair_line_spec; exact P.
  - destruct (re_match pattern (strip line)) eqn:G; [|reflexivity].
    apply guard_iff_pattern, pair_line_spec in G; congruence.
Qed.

(** ** Order of the series *)

Lemma kept_app l1 l2 : kept (l1 ++ l2) = kept l1 ++ kept l2.
Proof. unfold kept; now rewrite map_app, filter_app. Qed.

Lemma kept_cons_match l rest :
  re_match pattern (strip l) = true -> kept (l :: rest) = strip l :: kept rest.
Proof. intros G; unfold kept; simpl; now rewrite G. Qed.

Lemma kept_at lines i l :
  nth_error lines i = Some l ->
  re_match pattern (strip l) = true ->
  nth_error (kept lines) (rank lines i) = Some (strip l).
Proof.
  intros Hn G.
  destruct (nth_error_split _ _ Hn) as (l1 & l2 & -> & Hlen).
  unfold rank.
  rewrite firstn_app, <- Hlen, Nat.sub_diag, firstn_all; simpl.
  rewrite app_nil_r, kept_app, (kept_cons_match _ _ G).
  rewrite nth_error_app2, Nat.sub_diag; [reflexivity|apply Nat.le_refl].
Qed.

Lemma rank_lt lines i j l :
  nth_error lines i = Some l ->
  re_match pattern (strip l) = true ->
  (i < j)%nat ->
  (rank lines i < rank lines j)%nat.
Proof.
  intros Hn G Hij.
  destruct (nth_error_split _ _ Hn) as (l1 & l2 & -> & Hlen).
  unfold rank.
  rewrite !firstn_app, <- Hlen, Nat.sub_diag, !firstn_all; simpl.
  rewrite firstn_all2 by lia.
  destruct (j - List.length l1)%nat as [|k] eqn:E; [lia|].
  rewrite firstn_cons, app_nil_r, !kept_app, (kept_cons_match _ _ G).
  rewrite !length_app; simpl; lia.
Qed.

(** ** Claims about parse_data *)

(** C1, as stated, fails on a file whose only line has a first field of
    4301 digits: the line is of the form digits, comma, digits, and
    [parse_data] raises instead of returning its pair. *)
Lemma parse_data_digit_limit_counterexample :
  filter pair_line (map strip (file_lines long_field_sample)) =
  [long_field_sample] /\
  parse_data long_field_sample = inl digit_limit_error /\
  ~ (exists steps weights,
        parse_data long_field_sample = inr (steps, weights)).
Proof.
  assert (H : parse_data long_field_sample = inl digit_limit_error)
    by (vm_compute; reflexivity).
  split; [vm_compute; reflexivity|]; split; [exact H|].
  intros (steps & weights & E); rewrite H in E; discriminate E.
Qed.

(** C1 (amended): for every content of the input file in which no field of
    a line of the form "one or more digits, comma, one or more digits" has
    more than 4300 digits, [parse_data] returns the integer pairs of the
    stripped lines of that form: the lines it retains are exactly the
    stripped lines of that form, a line of another form adds nothing, and
    the two returned sequences both have as many elements as there are
    lines of that form. *)
Theorem parse_data_returns_matching_pairs (content : str) :
  let lines := map strip (file_lines content) in
  forallb within_limit (filter pair_line lines) = true ->
  exists steps weights : list Z,
    parse_data content = inr (steps, weights) /\
    retained content = filter pair_line lines /\
    (forall l, In l (retained content) <->
               In l lines /\ digits_comma_digits l) /\
    steps = map (fun l => fst (sample_of l)) (filter pair_line lines) /\
    weights = map (fun l => snd (sample_of l)) (filter pair_line lines) /\
    List.length steps = List.length (filter pair_line lines) /\
    List.length steps = List.length weights /\
    (steps = [] <-> filter pair_line lines = []).
Proof.
  intros lines W.
  exists (map (fun l => fst (sample_of l)) (filter pair_line lines)),
         (map (fun l => snd (sample_of l)) (filter pair_line lines)).
  subst lines; rewrite <- retained_filter in *.
  split; [exact (parse_data_within content W)|].
  split; [reflexivity|].
  split.
  { intros l; rewrite retained_filter at 1.
    rewrite filter_In, pair_line_spec; reflexivity. }
  rewrite !length_map.
  repeat split; auto.
  - intros H; apply map_eq_nil in H; exact H.
  - intros ->; reflexivity.
Qed.

Lemma parse_data_returns_matching_pairs_witness :
  exists steps weights : list Z,
    parse_data order_sample = inr (steps, weights) /\
    retained order_sample =
    filter pair_line (map strip (file_lines order_sample)) /\
    (forall l, In l (retained order_sample) <->
               In l (map strip (file_lines order_sample)) /\
               digits_comma_digits l) /\
    steps = map (fun l => fst (sample_of l))
              (filter pair_line (map strip (file_lines order_sample))) /\
    weights = map (fun l => snd (sample_of l))
                (filter pair_line (map strip (file_lines order_sample))) /\
    List.length steps =
    List.length (filter pair_line (map strip (file_lines order_sample))) /\
    List.length steps = List.length weights /\
    (steps = [] <->
     filter pair_line (map strip (file_lines order_sample)) = []).
Proof.
  apply (parse_data_returns_matching_pairs order_sample).
  vm_compute; reflexivity.
Defined.

(** C8: the series keeps the order of the file.  When lines [i < j] of the
    file both match, the sample of line [i] sits in [steps] and [weights]
    at an index smaller than the index of the sample of line [j]. *)
Theorem series_order_preserved
  (content : str) (steps weights : list Z) (i j : nat) (li lj : str) :
  parse_data content = inr (steps, weights) ->
  nth_error (file_lines content) i = Some li ->
  nth_error (file_lines content) j = Some lj ->
  (i < j)%nat ->
  digits_comma_digits (strip li) ->
  digits_comma_digits (strip lj) ->
  let p := rank (file_lines content) i in
  let q := rank (file_lines content) j in
  (p < q)%nat /\
  nth_error steps p = Some (fst (sample_of (strip li))) /\
  nth_error weights p = Some (snd (sample_of (strip li))) /\
  nth_error steps q = Some (fst (sample_of (strip lj))) /\
  nth_error weights q = Some (snd (sample_of (strip lj))).
Proof.
  intros Hp Hi Hj Hij Gi Gj p q.
  apply guard_iff_pattern in Gi, Gj.
  destruct (parse_data_inr _ _ _ Hp) as (_ & -> & ->).
  pose proof (kept_at _ _ _ Hi Gi) as Ki.
  pose proof (kept_at _ _ _ Hj Gj) as Kj.
  fold (retained content) in Ki, Kj.
  change (kept (file_lines content)) with (retained content) in Ki, Kj.
  split; [exact (rank_lt _ _ _ _ Hi Gi Hij)|].
  subst p q; rewrite !nth_error_map, Ki, Kj; simpl; auto.
Qed.

Lemma series_order_preserved_witness :
  (rank (file_lines order_sample) 1 < rank (file_lines order_sample) 3)%nat /\
  nth_error [3; 4] (rank (file_lines order_sample) 1) = Some 3 /\
  nth_error [30; 40] (rank (file_lines order_sample) 1) = Some 30 /\
  nth_error [3; 4] (rank (file_lines order_sample) 3) = Some 4 /\
  nth_error [30; 40] (rank (file_lines order_sample) 3) = Some 40.
Proof.
  apply (series_order_preserved order_sample [3; 4] [30; 40] 1 3
           (lit "3,30" ++ [LF]) (lit "4,40" ++ [LF])).
  - vm_compute; reflexivity.
  - vm_compute; reflexivity.
  - vm_compute; reflexivity.
  - lia.
  - apply pair_line_spec; vm_compute; reflexivity.
  - apply pair_line_spec; vm_compute; reflexivity.
Defined.

(** C9, as stated, fails on a line whose first field has 4301 digits: the
    line passes the guard and splits into two fields of digits, but [int]
    raises on the first one, and so does [parse_data]. *)
Lemma guarded_conversion_counterexample :
  re_match pattern (strip long_field_sample) = true /\
  split comma (strip long_field_sample) =
  [repeat "1"%char 4301; lit "1"] /\
  int (repeat "1"%char 4301) = inl digit_limit_error /\
  parse_data long_field_sample = inl digit_limit_error.
Proof. repeat split; vm_compute; reflexivity. Qed.

(** C9 (amended): a line that passes the guard splits on the comma into
    exactly two non-empty fields made of digits only, and both fields are
    there to be indexed; [int] returns the decimal value of a field of at
    most 4300 digits and raises its limit error on a longer one.  Hence
    [parse_data] never raises an index error nor an invalid-literal error:
    it returns the two sequences when every field of a retained line is
    within the limit, and raises the limit error otherwise. *)
Theorem guarded_conversion_up_to_limit (content : str) :
  parse_data content =
  (if forallb within_limit (retained content)
   then inr (map (fun l => fst (sample_of l)) (retained content),
             map (fun l => snd (sample_of l)) (retained content))
   else inl digit_limit_error) /\
  (forall line : str,
      re_match pattern (strip line) = true ->
      exists a b : str,
        split comma (strip line) = [a; b] /\
        a <> [] /\ b <> [] /\
        forallb isdigit a = true /\ forallb isdigit b = true /\
        getitem (split comma (strip line)) 0 = inr a /\
        getitem (split comma (strip line)) 1 = inr b /\
        int a = (if Nat.leb (List.length a) int_max_str_digits
                 then inr (decimal a) else inl digit_limit_error) /\
        int b = (if Nat.leb (List.length b) int_max_str_digits
                 then inr (decimal b) else inl digit_limit_error)).
Proof.
  split.
  - apply parse_data_spec.
  - intros line G; apply guard_iff_pattern in G.
    destruct G as (a & b & E & Ha & Hb & Hda & Hdb).
    exists a, b; rewrite E, (split_pair a b Hda Hdb).
    repeat split; auto using int_digits_ok.
Qed.

Lemma guarded_conversion_up_to_limit_witness :
  exists a b : str,
    split comma (strip (lit " 12,7 ")) = [a; b] /\
    a <> [] /\ b <> [] /\
    forallb isdigit a = true /\ forallb isdigit b = true /\
    getitem (split comma (strip (lit " 12,7 "))) 0 = inr a /\
    getitem (split comma (strip (lit " 12,7 "))) 1 = inr b /\
    int a = (if Nat.leb (List.length a) int_max_str_digits
             then inr (decimal a) else inl digit_limit_error) /\
    int b = (if Nat.leb (List.length b) int_max_str_digits
             then inr (decimal b) else inl digit_limit_error).
Proof.
  apply (proj2 (guarded_conversion_up_to_limit order_sample) (lit " 12,7 ")).
  vm_compute; reflexivity.
Defined.

(** ** The threshold of the verdict *)

(** The size of a mantissa brackets it between two powers of two. *)
Lemma digits2_bounds m :
  2 ^ (Zpos (digits2_pos m) - 1) <= Zpos m < 2 ^ Zpos (digits2_pos m).
Proof.
  induction m as [m IH|m IH|]; simpl digits2_pos.
  - rewrite Pos2Z.inj_succ.
    replace (Z.succ (Zpos (digits2_pos m)) - 1) with (Z.succ (Zpos (digits2_pos m) - 1)) by lia.
    rewrite !Z.pow_succ_r by lia. lia.
  - rewrite Pos2Z.inj_succ.
    replace (Z.succ (Zpos (digits2_pos m)) - 1) with (Z.succ (Zpos (digits2_pos m) - 1)) by lia.
    rewrite !Z.pow_succ_r by lia. lia.
  - simpl. lia.
Qed.

Lemma valid_finite_bounds s m e :
  valid_binary 53 1024 (S754_finite s m e) = true ->
  Zpos m < 2 ^ 53 /\ (-1074 < e -> 2 ^ 52 <= Zpos m).
Proof.
  unfold valid_binary, bounded, canonical_mantissa, fexp, emin.
  intros H; apply andb_true_iff in H; destruct H as [H _].
  apply Z.eqb_eq in H.
  pose proof (digits2_bounds m) as [Hlo Hhi].
  set (d := Zpos (digits2_pos m)) in *.
  split.
  - assert (d <= 53) by lia.
    apply Z.lt_le_trans with (2 ^ d); [exact Hhi|].
    apply Z.pow_le_mono_r; lia.
  - intros He. assert (d = 53) by lia.
    replace 52 with (d - 1) by lia. exact Hlo.
Qed.

Lemma finite_lt_threshold s m e :
  valid_binary 53 1024 (S754_finite s m e) = true ->
  SFltb (S754_finite false m e) f0_01 = true <->
  (Qabs (Q_of_finite s m e) < 1 # 100)%Q.
Proof.
  intros V; apply valid_finite_bounds in V; destruct V as [Hhi Hlo].
  change (2 ^ 53) with 9007199254740992 in Hhi.
  change (2 ^ 52) with 4503599627370496 in Hlo.
  assert (Habs : Z.abs (if s then Z.neg m else Z.pos m) = Zpos m) by (destruct s; reflexivity).
  destruct e as [|p|p].
  - cbv [SFltb SFcompare f0_01 Q_of_finite Qabs Qlt Qnum Qden Z.compare].
    rewrite Habs; split; [discriminate|lia].
  - cbv [SFltb SFcompare f0_01 Q_of_finite Qabs Qlt Qnum Qden Z.compare].
    rewrite Z.abs_mul, Habs.
    split; [discriminate|].
    change (Z.abs (Z.pos (2 ^ p))) with (Z.pos (2 ^ p)).
    nia.
  - cbv [SFltb SFcompare f0_01 Q_of_finite Qabs Qlt Qnum Qden].
    rewrite Habs, Pos2Z.inj_pow.
    destruct (Z.compare_spec (Zneg p) (-59)) as [E|L|G].
    + injection E as ->. rewrite Pos.compare_cont_spec.
      cbv [Pos.switch_Eq].
      change (2 ^ 59) with 576460752303423488.
      rewrite Pos2Z.inj_compare.
      destruct (Z.compare_spec (Zpos m) (Zpos 5764607523034235)) as [E'|L'|G'].
      * split; intros X; [inversion X|]. lia.
      * split; intros X; [|reflexivity]. lia.
      * split; intros X; [inversion X|]. lia.
    + split; [intros _|reflexivity].
      assert (H : 2 ^ 60 <= 2 ^ Zpos p) by (apply Z.pow_le_mono_r; lia).
      change (2 ^ 60) with 1152921504606846976 in H. lia.
    + split; [discriminate|]. intros H.
      assert (H0 : 2 ^ Zpos p <= 2 ^ 58) by (apply Z.pow_le_mono_r; lia).
      change (2 ^ 58) with 288230376151711744 in H0.
      specialize (Hlo ltac:(lia)). lia.
Qed.

(** [f0_01] and [f0_0099] are the binary64 values nearest to 1/100 and to
    99/10000: each is within half a unit in the last place, 2^-60. *)
Lemma threshold_literals :
  Q_of_float f0_01 = Some (5764607523034235 # 2 ^ 59) /\
  (Qabs ((5764607523034235 # 2 ^ 59) - (1 # 100)) <= 1 # 2 ^ 60)%Q /\
  Q_of_float f0_0099 = Some (5706961447803893 # 2 ^ 59) /\
  (Qabs ((5706961447803893 # 2 ^ 59) - (99 # 10000)) <= 1 # 2 ^ 60)%Q.
Proof.
  repeat split; vm_compute; intros H; discriminate H.
Qed.

Lemma abs_lt_threshold_spec (slope : float) :
  valid_binary 53 1024 slope = true ->
  abs_lt_threshold slope = true <-> below_threshold slope.
Proof.
  intros V; unfold abs_lt_threshold, below_threshold.
  destruct slope as [s|s| |s m e].
  - split; [intros _|reflexivity].
    exists 0%Q; split; reflexivity.
  - split; [discriminate|].
    intros (q & H & _); discriminate.
  - split; [discriminate|].
    intros (q & H & _); discriminate.
  - change (SFabs (S754_finite s m e)) with (S754_finite false m e).
    rewrite (finite_lt_threshold s m e V); split.
    + intros H; exists (Q_of_finite s m e); auto.
    + intros (q & H & Hq); injection H as <-; exact Hq.
Qed.

(** ** Runs of main *)

Lemma hypothesis_check_run steps weights slope m :
  max weights = inr m ->
  hypothesis_check steps weights slope =
  ([verdict_label steps m (verdict slope);
    Print (verdict_line (verdict slope))], inr tt).
Proof.
  intros Hm; unfold hypothesis_check, verdict_label, verdict_line, verdict.
  rewrite Hm; destruct (abs_lt_threshold slope); reflexivity.
Qed.

Lemma float_of_int_spec z :
  float_of_int z =
  if fits_float z then inr (nearest_float z) else inl overflow_error.
Proof.
  unfold fits_float, float_of_int, overflow_error.
  destruct (nearest_float z); reflexivity.
Qed.

Lemma to_floats_spec l :
  to_floats l =
  if forallb fits_float l then inr (map nearest_float l)
  else inl overflow_error.
Proof.
  unfold to_floats; induction l as [|z l IH]; [reflexivity|].
  cbn [map_result forallb map]; rewrite float_of_int_spec, IH.
  destruct (fits_float z); [|reflexivity].
  destruct (forallb fits_float l); reflexivity.
Qed.

Lemma trend_values_spec slope intercept l :
  forallb fits_float l = true ->
  map_result (fun x => bind_result (float_of_int x)
                         (fun fx => inr (fadd (fmul slope fx) intercept))) l =
  inr (map (fun x => fadd (fmul slope (nearest_float x)) intercept) l).
Proof.
  induction l as [|z l IH]; [reflexivity|].
  cbn [map_result forallb map]; intros H.
  apply andb_true_iff in H; destruct H as [Hz Hl].
  rewrite float_of_int_spec, Hz, (IH Hl); reflexivity.
Qed.

Lemma plot_data_spec e xs ys :
  plot_data e xs ys =
  if plottable xs ys then ([e], inr tt)
  else ([], inl (Uncaught overflow_error)).
Proof.
  unfold plot_data, plottable; rewrite !to_floats_spec.
  destruct (forallb fits_float xs); [|reflexivity].
  destruct (forallb fits_float ys); reflexivity.
Qed.

Section Runs.

Variable linregress : list Z -> list Z -> result (float * float).

Lemma main_parse_raises content e :
  parse_data content = inl e ->
  main linregress content = ([Print parsing_notice], inl (Uncaught e)).
Proof. intros Hp; unfold main; rewrite Hp; reflexivity. Qed.

Lemma main_no_data content weights :
  parse_data content = inr ([], weights) ->
  main linregress content =
  ([Print parsing_notice; Print no_data_notice], inl (SysExit 1)).
Proof. intros Hp; unfold main; rewrite Hp; reflexivity. Qed.

Lemma main_plot_raises content steps weights :
  parse_data content = inr (steps, weights) ->
  steps <> [] ->
  plottable steps weights = false ->
  main linregress content =
  ([Print parsing_notice; Print (count_line steps); PltFigure 10 6],
   inl (Uncaught overflow_error)).
Proof.
  intros Hp Hne Hf; unfold main; rewrite Hp.
  destruct steps as [|x steps]; [congruence|].
  cbn [call bind print emit ret fst snd app].
  rewrite !plot_data_spec, Hf; reflexivity.
Qed.

Lemma main_regression_raises content steps weights e :
  parse_data content = inr (steps, weights) ->
  steps <> [] ->
  plottable steps weights = true ->
  linregress steps weights = inl e ->
  main linregress content =
  (Print parsing_notice :: Print (count_line steps)
     :: raw_plot steps weights,
   inl (Uncaught e)).
Proof.
  intros Hp Hne Hf Hl; unfold main; rewrite Hp.
  destruct steps as [|x steps]; [congruence|].
  cbn [call bind print emit ret fst snd app].
  rewrite !plot_data_spec, Hf.
  cbn [call bind print emit ret fst snd app].
  rewrite Hl; reflexivity.
Qed.

Lemma main_full_run content steps weights slope intercept m :
  parse_data content = inr (steps, weights) ->
  steps <> [] ->
  plottable steps weights = true ->
  linregress steps weights = inr (slope, intercept) ->
  max weights = inr m ->
  main linregress content =
  (Print parsing_notice :: Print (count_line steps)
     :: raw_plot steps weights
     ++ Print (slope_line slope) :: Print (intercept_line intercept)
     :: trend_plot steps slope intercept
     ++ [verdict_label steps m (verdict slope);
         Print (verdict_line (verdict slope));
         PltSavefig output_file 300;
         Print saved_line],
   inr tt).
Proof.
  intros Hp Hne Hf Hl Hm; unfold main; rewrite Hp.
  destruct steps as [|x steps]; [congruence|].
  cbn [call bind print emit ret fst snd app].
  rewrite !plot_data_spec, Hf.
  cbn [call bind print emit ret fst snd app].
  rewrite Hl.
  assert (Hx : forallb fits_float (x :: steps) = true).
  { unfold plottable in Hf; apply andb_true_iff in Hf; tauto. }
  cbn [call bind print emit ret fst snd app].
  rewrite (trend_values_spec slope intercept _ Hx).
  cbn [call bind print emit ret fst snd app].
  rewrite (hypothesis_check_run _ _ _ _ Hm).
  reflexivity.
Qed.

End Runs.

(** What [parse_data] returns is two sequences of the same length. *)
Lemma parse_data_lengths content steps weights :
  parse_data content = inr (steps, weights) ->
  List.length steps = List.length weights.
Proof.
  intros H; destruct (parse_data_inr _ _ _ H) as (_ & -> & ->).
  now rewrite !length_map.
Qed.

Lemma parse_data_nonempty content steps weights :
  parse_data content = inr (steps, weights) ->
  steps <> [] -> weights <> [].
Proof.
  intros Hp Hs; pose proof (parse_data_lengths _ _ _ Hp) as L.
  destruct weights; [destruct steps; [congruence | discriminate L]
                    | discriminate].
Qed.

Lemma parse_data_retained content steps weights :
  parse_data content = inr (steps, weights) ->
  (steps = [] <-> retained content = []).
Proof.
  intros H; destruct (parse_data_inr _ _ _ H) as (_ & -> & _); split.
  - apply map_eq_nil.
  - intros ->; reflexivity.
Qed.

Lemma fold_max_ge l : forall x,
  x <= fold_left Z.max l x /\
  (forall w, In w l -> w <= fold_left Z.max l x) /\
  (fold_left Z.max l x = x \/ In (fold_left Z.max l x) l).
Proof.
  induction l as [|y l IH]; intros x; simpl.
  - repeat split; auto; [lia | contradiction].
  - destruct (IH (Z.max x y)) as (H1 & H2 & H3).
    split; [lia|]; split.
    + intros w [<- | Hw]; [lia | auto].
    + destruct H3 as [H3 | H3]; [|auto].
      rewrite H3; destruct (Z.max_spec x y) as [[_ ->] | [_ ->]]; auto.
Qed.

(** [max] on a non-empty list returns its greatest element. *)
Lemma max_nonempty l :
  l <> [] ->
  exists m, max l = inr m /\ In m l /\ (forall w, In w l -> w <= m).
Proof.
  destruct l as [|x l]; [congruence|]; intros _.
  destruct (fold_max_ge l x) as (H1 & H2 & H3).
  exists (fold_left Z.max l x); simpl; repeat split.
  - destruct H3 as [-> | H3]; auto.
  - intros w [<- | Hw]; auto.
Qed.

(** A run of [main] that returns went through every stage. *)
Lemma main_returned
  (linregress : list Z -> list Z -> result (float * float)) (content : str) :
  snd (main linregress content) = inr tt ->
  exists steps weights slope intercept m,
    parse_data content = inr (steps, weights) /\
    steps <> [] /\
    plottable steps weights = true /\
    linregress steps weights = inr (slope, intercept) /\
    max weights = inr m.
Proof.
  destruct (parse_data content) as [e | [steps weights]] eqn:Hp.
  { rewrite (main_parse_raises _ _ _ Hp); discriminate. }
  destruct steps as [|x steps'] eqn:Es.
  { rewrite (main_no_data _ _ _ Hp); discriminate. }
  assert (Hs : x :: steps' <> []) by discriminate.
  destruct (plottable (x :: steps') weights) eqn:Hf.
  2: { rewrite (main_plot_raises _ _ _ _ Hp Hs Hf); discriminate. }
  destruct (linregress (x :: steps') weights) as [e | [slope intercept]] eqn:Hl.
  { rewrite (main_regression_raises _ _ _ _ _ Hp Hs Hf Hl); discriminate. }
  destruct (max_nonempty weights (parse_data_nonempty _ _ _ Hp Hs))
    as (m & Hm & _).
  intros _; exists (x :: steps'), weights, slope, intercept, m; auto.
Qed.

(** ** Claims about the verdict and the report *)

(** C2: for every binary64 slope the verdict is STABLE exactly when the
    slope is a number of magnitude strictly below 1/100, and
    GROWTH_DETECTED otherwise (NaN and the infinities included).  The
    slopes 0.01 and -0.01 give GROWTH_DETECTED, the slopes 0.0099 and
    -0.0099 give STABLE, and the hypothesis check of [main] writes the
    text of that verdict on the chart and on standard output. *)
Theorem verdict_strict_threshold (slope : float) :
  valid_binary 53 1024 slope = true ->
  (verdict slope = STABLE <-> below_threshold slope) /\
  (verdict slope = GROWTH_DETECTED <-> ~ below_threshold slope) /\
  verdict f0_01 = GROWTH_DETECTED /\
  verdict (SFopp f0_01) = GROWTH_DETECTED /\
  verdict f0_0099 = STABLE /\
  verdict (SFopp f0_0099) = STABLE /\
  (forall steps weights m,
      max weights = inr m ->
      hypothesis_check steps weights slope =
      ([verdict_label steps m (verdict slope);
        Print (verdict_line (verdict slope))], inr tt)).
Proof.
  intros V; pose proof (abs_lt_threshold_spec slope V) as H.
  assert (Hc : forall steps weights m,
             max weights = inr m ->
             hypothesis_check steps weights slope =
             ([verdict_label steps m (verdict slope);
               Print (verdict_line (verdict slope))], inr tt))
    by (intros; now apply hypothesis_check_run).
  assert (Hs : verdict slope = STABLE <-> below_threshold slope).
  { rewrite <- H; unfold verdict.
    destruct (abs_lt_threshold slope); split; auto; discriminate. }
  assert (Hg : verdict slope = GROWTH_DETECTED <-> ~ below_threshold slope).
  { rewrite <- Hs; destruct (verdict slope); split; auto; try discriminate.
    intros N; exfalso; apply N; reflexivity. }
  split; [exact Hs|]; split; [exact Hg|].
  split; [reflexivity|]; split; [reflexivity|].
  split; [reflexivity|]; split; [reflexivity|exact Hc].
Qed.

Lemma verdict_strict_threshold_witness :
  (verdict f0_0099 = STABLE <-> below_threshold f0_0099) /\
  (verdict f0_0099 = GROWTH_DETECTED <-> ~ below_threshold f0_0099) /\
  verdict f0_01 = GROWTH_DETECTED /\
  verdict (SFopp f0_01) = GROWTH_DETECTED /\
  verdict f0_0099 = STABLE /\
  verdict (SFopp f0_0099) = STABLE /\
  (forall steps weights m,
      max weights = inr m ->
      hypothesis_check steps weights f0_0099 =
      ([verdict_label steps m (verdict f0_0099);
        Print (verdict_line (verdict f0_0099))], inr tt)).
Proof.
  apply (verdict_strict_threshold f0_0099); vm_compute; reflexivity.
Defined.

(** C3: when no line of the file matches, [main] prints the parsing notice
    and "No CSV data found in raw_output.txt" and then exits with code 1;
    no chart command is issued and the regression plays no part, whatever
    it would do.  This is the only call of [sys.exit]: when some line
    matches, the run does not end in it. *)
Theorem no_data_exit
  (linregress : list Z -> list Z -> result (float * float)) (content : str) :
  (retained content = [] ->
   main linregress content = no_data_run /\
   stdout (main linregress content) = [parsing_notice; no_data_notice] /\
   exit_code (main linregress content) = Some 1) /\
  (retained content <> [] ->
   forall code, snd (main linregress content) <> inl (SysExit code)).
Proof.
  split.
  - intros E.
    assert (Hp : parse_data content = inr ([], [])).
    { rewrite parse_data_spec, E; reflexivity. }
    rewrite (main_no_data linregress content [] Hp).
    repeat split.
  - intros Hne code.
    destruct (parse_data content) as [e | [steps weights]] eqn:Hp.
    { rewrite (main_parse_raises _ _ _ Hp); discriminate. }
    assert (Hs : steps <> []).
    { intros E; apply Hne, (parse_data_retained _ _ _ Hp); exact E. }
    destruct (plottable steps weights) eqn:Hf.
    2: { rewrite (main_plot_raises _ _ _ _ Hp Hs Hf); discriminate. }
    destruct (linregress steps weights) as [e | [slope intercept]] eqn:Hl.
    + rewrite (main_regression_raises _ _ _ _ _ Hp Hs Hf Hl); discriminate.
    + destruct (max_nonempty weights (parse_data_nonempty _ _ _ Hp Hs))
        as (m & Hm & _).
      rewrite (main_full_run _ _ _ _ _ _ _ Hp Hs Hf Hl Hm); discriminate.
Qed.

Lemma no_data_exit_witness :
  main spec_linregress scenario_C = no_data_run /\
  stdout (main spec_linregress scenario_C) =
  [parsing_notice; no_data_notice] /\
  exit_code (main spec_linregress scenario_C) = Some 1.
Proof.
  apply (proj1 (no_data_exit spec_linregress scenario_C)).
  vm_compute; reflexivity.
Defined.

(** C4, as stated, fails on the file of scenario B: the verdict is printed
    before the path of the chart, not after it. *)
Lemma stdout_order_counterexample :
  stdout (main spec_linregress scenario_B) =
  transcript [1; 2; 3; 4] fone fzero GROWTH_DETECTED /\
  ~ (exists steps slope intercept v,
        stdout (main spec_linregress scenario_B) =
        transcript_path_then_verdict steps slope intercept v).
Proof.
  split; [vm_compute; reflexivity|].
  intros (steps & slope & intercept & v & H).
  vm_compute in H; destruct v; discriminate H.
Qed.

(** C4 (amended): on every successful run, that is whenever [main]
    returns, at least one point was extracted, the regression returned a
    slope and an intercept, and [main] has printed, in this order: the
    parsing notice, the count of points, the slope, the intercept, the
    verdict text and the path of the chart; the exit code is 0. *)
Theorem stdout_order
  (linregress : list Z -> list Z -> result (float * float)) (content : str) :
  snd (main linregress content) = inr tt ->
  exists (steps weights : list Z) (slope intercept : float),
    parse_data content = inr (steps, weights) /\
    steps <> [] /\
    linregress steps weights = inr (slope, intercept) /\
    stdout (main linregress content) =
    transcript steps slope intercept (verdict slope) /\
    exit_code (main linregress content) = Some 0.
Proof.
  intros R.
  destruct (main_returned linregress content R)
    as (steps & weights & slope & intercept & m & Hp & Hs & Hf & Hl & Hm).
  exists steps, weights, slope, intercept.
  rewrite (main_full_run _ _ _ _ _ _ _ Hp Hs Hf Hl Hm).
  repeat split; auto.
Qed.

Lemma stdout_order_witness :
  exists (steps weights : list Z) (slope intercept : float),
    parse_data scenario_B = inr (steps, weights) /\
    steps <> [] /\
    spec_linregress steps weights = inr (slope, intercept) /\
    stdout (main spec_linregress scenario_B) =
    transcript steps slope intercept (verdict slope) /\
    exit_code (main spec_linregress scenario_B) = Some 0.
Proof.
  apply (stdout_order spec_linregress scenario_B).
  vm_compute; reflexivity.
Defined.

(** C5, as stated, fails on a file with the steps 10 and 20: the label is
    put at x = 2/2 = 1, the midpoint of the step range is 15. *)
Lemma label_position_counterexample :
  parse_data gap_sample = inr ([10; 20], [1; 2]) /\
  label_positions (events (main spec_linregress gap_sample)) = [(2 # 2, 3)] /\
  step_midpoint [10; 20] = inr (30 # 2) /\
  ~ (2 # 2 == 30 # 2)%Q.
Proof.
  repeat split; try (vm_compute; reflexivity).
  intros H; vm_compute in H; discriminate H.
Qed.

(** C5 (amended): on every successful run, that is whenever [main]
    returns, the chart carries one text label, the verdict; its
    x-coordinate is len(steps)/2, half the number of points, and its
    y-coordinate is max(weights) + 1, one above the greatest weight. *)
Theorem label_position
  (linregress : list Z -> list Z -> result (float * float)) (content : str) :
  snd (main linregress content) = inr tt ->
  exists (steps weights : list Z) (slope intercept : float) (m : Z),
    parse_data content = inr (steps, weights) /\
    linregress steps weights = inr (slope, intercept) /\
    max weights = inr m /\
    In m weights /\
    (forall w, In w weights -> w < m + 1) /\
    In (verdict_label steps m (verdict slope))
       (events (main linregress content)) /\
    label_positions (events (main linregress content)) =
    [(Z.of_nat (List.length steps) # 2, m + 1)].
Proof.
  intros R.
  destruct (main_returned linregress content R)
    as (steps & weights & slope & intercept & m0 & Hp & Hs & Hf & Hl & _).
  destruct (max_nonempty weights (parse_data_nonempty _ _ _ Hp Hs))
    as (m & Hm & Hin & Hmax).
  exists steps, weights, slope, intercept, m.
  rewrite (main_full_run _ _ _ _ _ _ _ Hp Hs Hf Hl Hm).
  split; [exact Hp|]; split; [exact Hl|].
  split; [exact Hm|]; split; [exact Hin|]; split.
  - intros w Hwin; specialize (Hmax w Hwin); lia.
  - split; [|reflexivity].
    unfold events, raw_plot, trend_plot; simpl; auto 20.
Qed.

Lemma label_position_witness :
  exists (steps weights : list Z) (slope intercept : float) (m : Z),
    parse_data gap_sample = inr (steps, weights) /\
    spec_linregress steps weights = inr (slope, intercept) /\
    max weights = inr m /\
    In m weights /\
    (forall w, In w weights -> w < m + 1) /\
    In (verdict_label steps m (verdict slope))
       (events (main spec_linregress gap_sample)) /\
    label_positions (events (main spec_linregress gap_sample)) =
    [(Z.of_nat (List.length steps) # 2, m + 1)].
Proof.
  apply (label_position spec_linregress gap_sample).
  vm_compute; reflexivity.
Defined.

(** C6, as stated, fails on two files with exactly one matching line.  When
    a field has 4301 digits, [int] raises inside [parse_data] and [main]
    never reaches the check for data.  When the step has 400 digits, the
    check passes and the count is printed, but the first plot raises, for
    every regression, before the regression is called. *)
Lemma single_point_counterexample :
  List.length (retained long_field_sample) = 1%nat /\
  main spec_linregress long_field_sample =
  ([Print parsing_notice], inl (Uncaught digit_limit_error)) /\
  List.length (retained huge_step_sample) = 1%nat /\
  (forall linregress,
      main linregress huge_step_sample =
      ([Print parsing_notice; Print (count_line [10 ^ 400 - 1]);
        PltFigure 10 6],
       inl (Uncaught overflow_error))).
Proof.
  split; [vm_compute; reflexivity|].
  split; [vm_compute; reflexivity|].
  split; [vm_compute; reflexivity|].
  intros linregress.
  apply (main_plot_raises linregress huge_step_sample [10 ^ 400 - 1] [1]).
  - vm_compute; reflexivity.
  - discriminate.
  - vm_compute; reflexivity.
Qed.

(** C6 (amended): when exactly one line of the file matches, its fields
    have at most 4300 digits and its two values are in the range of a
    float, [main] passes the check for data: it prints neither the no-data
    message nor exits through [sys.exit], prints the count of one point and
    hands the regression a single point.  The regression then fails, and
    the run ends in that uncaught exception before any slope or verdict is
    printed. *)
Theorem single_point_run (content : str) :
  List.length (retained content) = 1%nat ->
  forallb within_limit (retained content) = true ->
  (forall l, In l (retained content) ->
             plottable [fst (sample_of l)] [snd (sample_of l)] = true) ->
  exists step weight : Z,
    parse_data content = inr ([step], [weight]) /\
    spec_linregress [step] [weight] = inl InsufficientDataError /\
    main spec_linregress content =
    (Print parsing_notice :: Print (count_line [step])
       :: raw_plot [step] [weight],
     inl (Uncaught InsufficientDataError)) /\
    stdout (main spec_linregress content) =
    [parsing_notice; count_line [step]] /\
    (forall linregress e,
        linregress [step] [weight] = inl e ->
        main linregress content =
        (Print parsing_notice :: Print (count_line [step])
           :: raw_plot [step] [weight],
         inl (Uncaught e))).
Proof.
  intros L W F; pose proof (parse_data_within content W) as Hp.
  destruct (retained content) as [|l [|l' r]]; try discriminate L.
  simpl in Hp.
  specialize (F l (or_introl eq_refl)).
  exists (fst (sample_of l)), (snd (sample_of l)).
  assert (Hr : forall linregress e,
             linregress [fst (sample_of l)] [snd (sample_of l)] = inl e ->
             main linregress content =
             (Print parsing_notice :: Print (count_line [fst (sample_of l)])
                :: raw_plot [fst (sample_of l)] [snd (sample_of l)],
              inl (Uncaught e))).
  { intros linregress e He.
    apply (main_regression_raises _ _ _ _ _ Hp); auto; discriminate. }
  split; [exact Hp|]; split; [reflexivity|].
  split; [apply Hr; reflexivity|].
  split; [rewrite (Hr spec_linregress _ eq_refl); reflexivity | exact Hr].
Qed.

Lemma single_point_run_witness :
  exists step weight : Z,
    parse_data single_sample = inr ([step], [weight]) /\
    spec_linregress [step] [weight] = inl InsufficientDataError /\
    main spec_linregress single_sample =
    (Print parsing_notice :: Print (count_line [step])
       :: raw_plot [step] [weight],
     inl (Uncaught InsufficientDataError)) /\
    stdout (main spec_linregress single_sample) =
    [parsing_notice; count_line [step]] /\
    (forall linregress e,
        linregress [step] [weight] = inl e ->
        main linregress single_sample =
        (Print parsing_notice :: Print (count_line [step])
           :: raw_plot [step] [weight],
         inl (Uncaught e))).
Proof.
  apply (single_point_run single_sample).
  - vm_compute; reflexivity.
  - vm_compute; reflexivity.
  - intros l Hl; vm_compute in Hl.
    destruct Hl as [<- | []]; vm_compute; reflexivity.
Defined.

(** C7: on the file "1,1\n2,2\n3,3\n4,4\n" the extracted series is
    ([1,2,3,4],[1,2,3,4]), the fitted slope is the float 1.0 and the
    intercept the float 0.0, the verdict is GROWTH_DETECTED, and [main]
    returns, so that the process exits with code 0. *)
Theorem scenario_B_run :
  parse_data scenario_B = inr ([1; 2; 3; 4], [1; 2; 3; 4]) /\
  spec_linregress [1; 2; 3; 4] [1; 2; 3; 4] = inr (fone, fzero) /\
  option_map Qred (Q_of_float fone) = Some 1%Q /\
  option_map Qred (Q_of_float fzero) = Some 0%Q /\
  verdict fone = GROWTH_DETECTED /\
  stdout (main spec_linregress scenario_B) =
  transcript [1; 2; 3; 4] fone fzero GROWTH_DETECTED /\
  snd (main spec_linregress scenario_B) = inr tt /\
  exit_code (main spec_linregress scenario_B) = Some 0.
Proof. vm_compute; repeat split. Qed.

(** C10: when the steps returned by [parse_data] are not empty, neither are
    the weights, so [max(weights)] returns the greatest weight and the
    hypothesis check runs to its end in both branches without raising. *)
Theorem max_weights_defined (content : str) (steps weights : list Z) :
  parse_data content = inr (steps, weights) ->
  steps <> [] ->
  weights <> [] /\
  List.length weights = List.length steps /\
  exists m : Z,
    max weights = inr m /\
    In m weights /\
    (forall w, In w weights -> w <= m) /\
    (forall slope,
        snd (hypothesis_check steps weights slope) = inr tt /\
        events (hypothesis_check steps weights slope) =
        [verdict_label steps m (verdict slope);
         Print (verdict_line (verdict slope))]).
Proof.
  intros Hp Hs; pose proof (parse_data_lengths _ _ _ Hp) as L.
  assert (Hw : weights <> []).
  { destruct weights; [destruct steps; [congruence | discriminate L]
                      | discriminate]. }
  destruct (max_nonempty weights Hw) as (m & Hm & Hin & Hmax).
  split; [exact Hw|]; split; [symmetry; exact L|].
  exists m; repeat split; auto;
    rewrite (hypothesis_check_run _ _ _ _ Hm); reflexivity.
Qed.

Lemma max_weights_defined_witness :
  [1; 2; 3; 4] <> [] /\
  List.length [1; 2; 3; 4] = List.length [1; 2; 3; 4] /\
  exists m : Z,
    max [1; 2; 3; 4] = inr m /\
    In m [1; 2; 3; 4] /\
    (forall w, In w [1; 2; 3; 4] -> w <= m) /\
    (forall slope,
        snd (hypothesis_check [1; 2; 3; 4] [1; 2; 3; 4] slope) = inr tt /\
        events (hypothesis_check [1; 2; 3; 4] [1; 2; 3; 4] slope) =
        [verdict_label [1; 2; 3; 4] m (verdict slope);
         Print (verdict_line (verdict slope))]).
Proof.
  apply (max_weights_defined scenario_B [1; 2; 3; 4] [1; 2; 3; 4]).
  - vm_compute; reflexivity.
  - discriminate.
Defined.

(** * Further properties of parse_data and main *)

(** ** White space around a sample, foreign characters, leading zeros *)

Lemma lstrip_spaces pre s :
  forallb isspace pre = true -> lstrip (pre ++ s) = lstrip s.
Proof.
  induction pre as [|c pre IH]; simpl; intros H; [reflexivity|].
  apply andb_true_iff in H; destruct H as [Hc Hp].
  rewrite Hc; exact (IH Hp).
Qed.

Lemma pair_ends a b :
  a <> [] -> b <> [] ->
  forallb isdigit a = true -> forallb isdigit b = true ->
  (exists c t, a ++ comma :: b = c :: t /\ isspace c = false) /\
  (exists c t, rev (a ++ comma :: b) = c :: t /\ isspace c = false).
Proof.
  intros Ha Hb Hda Hdb; split.
  - destruct a as [|c a]; [congruence|].
    simpl in Hda; apply andb_true_iff in Hda; destruct Hda as [Hc _].
    exists c, (a ++ comma :: b); split; [reflexivity|].
    exact (digit_not_space c Hc).
  - assert (Hr : forallb isdigit (rev b) = true) by now rewrite forallb_rev.
    rewrite rev_app_distr; simpl rev.
    destruct (rev b) as [|c t] eqn:E.
    + apply (f_equal (@rev ascii)) in E; rewrite rev_involutive in E.
      simpl in E; congruence.
    + simpl in Hr; apply andb_true_iff in Hr; destruct Hr as [Hc _].
      exists c, ((t ++ [comma]) ++ rev a); split.
      * rewrite <- !app_assoc; reflexivity.
      * exact (digit_not_space c Hc).
Qed.

(** White space on both sides of a sample is removed by [strip]. *)
Lemma strip_padded_pair pre post a b :
  forallb isspace pre = true -> forallb isspace post = true ->
  a <> [] -> b <> [] ->
  forallb isdigit a = true -> forallb isdigit b = true ->
  strip (pre ++ (a ++ comma :: b) ++ post) = a ++ comma :: b.
Proof.
  intros Hpre Hpost Ha Hb Hda Hdb.
  destruct (pair_ends a b Ha Hb Hda Hdb)
    as [(c & t & E1 & Hc) (d & u & E2 & Hd)].
  unfold strip, rstrip.
  rewrite (lstrip_spaces pre _ Hpre), E1; simpl app.
  rewrite (lstrip_fixed c _ Hc).
  change (c :: t ++ post) with ((c :: t) ++ post).
  rewrite <- E1, rev_app_distr.
  rewrite lstrip_spaces by now rewrite forallb_rev.
  rewrite E2, (lstrip_fixed d u Hd), <- E2.
  apply rev_involutive.
Qed.

Lemma within_limit_ok a b :
  forallb isdigit a = true ->
  (List.length a <= int_max_str_digits)%nat ->
  (List.length b <= int_max_str_digits)%nat ->
  within_limit (a ++ comma :: b) = true.
Proof.
  intros Hda La Lb; rewrite (within_limit_pair a b Hda).
  apply andb_true_iff; split; apply Nat.leb_le; assumption.
Qed.

(** X1: a sample surrounded by any amount of white space (indentation,
    trailing blanks, the line terminator) is extracted all the same: when
    its fields have at most 4300 digits, the loop body appends the decimal
    values of its two fields. *)
Theorem padded_sample_extracted
  (steps weights : list Z) (pre post a b : str) :
  forallb isspace pre = true -> forallb isspace post = true ->
  a <> [] -> b <> [] ->
  forallb isdigit a = true -> forallb isdigit b = true ->
  (List.length a <= int_max_str_digits)%nat ->
  (List.length b <= int_max_str_digits)%nat ->
  parse_line (steps, weights) (pre ++ (a ++ comma :: b) ++ post) =
  inr (steps ++ [decimal a], weights ++ [decimal b]).
Proof.
  intros Hpre Hpost Ha Hb Hda Hdb La Lb.
  pose proof (strip_padded_pair pre post a b Hpre Hpost Ha Hb Hda Hdb) as E.
  assert (G : re_match pattern (strip (pre ++ (a ++ comma :: b) ++ post)) = true).
  { apply guard_iff_pattern; rewrite E; exists a, b; auto. }
  rewrite (parse_line_match _ _ _ G), E, (sample_of_pair a b Hda).
  now rewrite (within_limit_ok a b Hda La Lb).
Qed.

Lemma padded_sample_extracted_witness :
  parse_line ([1], [2]) (lit "   12,7  " ++ [CR; LF]) = inr ([1; 12], [2; 7]).
Proof.
  apply (padded_sample_extracted [1] [2] (lit "   ") (lit "  " ++ [CR; LF])
           (lit "12") (lit "7")); try reflexivity; try discriminate;
    apply Nat.leb_le; vm_compute; reflexivity.
Defined.

(** X2: a line is skipped as soon as, once stripped, it holds a character
    that is neither a digit nor the comma (a sign, a decimal point, a blank
    inside), or does not hold exactly one comma. *)
Theorem foreign_line_skipped (acc : list Z * list Z) (line : str) :
  (exists c, In c (strip line) /\ isdigit c = false /\ c <> comma) \/
  count_occ ascii_dec (strip line) comma <> 1%nat ->
  parse_line acc line = inr acc.
Proof.
  intros H; destruct acc as [steps weights].
  apply parse_line_skip.
  destruct (re_match pattern (strip line)) eqn:G; [exfalso|reflexivity].
  apply guard_iff_pattern in G.
  destruct G as (a & b & E & Ha & Hb & Hda & Hdb).
  rewrite forallb_forall in Hda, Hdb.
  destruct H as [(c & Hin & Hc & Hne) | Hcount].
  - rewrite E in Hin; apply in_app_or in Hin.
    destruct Hin as [Hin | [Hin | Hin]]; try congruence.
    + rewrite (Hda c Hin) in Hc; discriminate.
    + rewrite (Hdb c Hin) in Hc; discriminate.
  - apply Hcount; rewrite E, count_occ_app; simpl.
    destruct (ascii_dec comma comma) as [_|N]; [|congruence].
    assert (Z0 : forall s, (forall x, In x s -> isdigit x = true) ->
                           count_occ ascii_dec s comma = 0%nat).
    { intros s Hs; apply count_occ_not_In; intros Hin.
      specialize (Hs _ Hin); rewrite comma_not_digit in Hs; discriminate. }
    rewrite (Z0 a Hda), (Z0 b Hdb); reflexivity.
Qed.

Lemma foreign_line_skipped_witness :
  parse_line ([1], [2]) (lit "-3,4") = inr ([1], [2]).
Proof.
  apply (foreign_line_skipped ([1], [2]) (lit "-3,4")).
  left; exists "-"%char; repeat split; [vm_compute; auto | discriminate].
Defined.

Lemma parse_line_pair steps weights a b :
  a <> [] -> b <> [] ->
  forallb isdigit a = true -> forallb isdigit b = true ->
  (List.length a <= int_max_str_digits)%nat ->
  (List.length b <= int_max_str_digits)%nat ->
  parse_line (steps, weights) (a ++ comma :: b) =
  inr (steps ++ [decimal a], weights ++ [decimal b]).
Proof.
  intros Ha Hb Hda Hdb La Lb.
  pose proof (strip_padded_pair [] [] a b eq_refl eq_refl Ha Hb Hda Hdb) as S.
  simpl in S; rewrite app_nil_r in S.
  assert (G : re_match pattern (strip (a ++ comma :: b)) = true).
  { apply guard_iff_pattern; rewrite S; exists a, b; auto. }
  rewrite (parse_line_match _ _ _ G), S, (sample_of_pair a b Hda).
  now rewrite (within_limit_ok a b Hda La Lb).
Qed.

Lemma decimal_zeros n a : decimal (repeat zero_char n ++ a) = decimal a.
Proof.
  unfold decimal; induction n as [|n IH]; [reflexivity|exact IH].
Qed.

Lemma digits_zeros n a :
  forallb isdigit a = true -> forallb isdigit (repeat zero_char n ++ a) = true.
Proof.
  intros H; rewrite forallb_app, H, andb_true_r.
  induction n; [reflexivity|exact IHn].
Qed.

(** X3: leading zeros are accepted and do not change the value: a sample
    written with zeros in front of either field is extracted as the same
    pair of integers, as long as each field, zeros included, has at most
    4300 digits. *)
Theorem leading_zeros_ignored
  (steps weights : list Z) (n k : nat) (a b : str) :
  a <> [] -> b <> [] ->
  forallb isdigit a = true -> forallb isdigit b = true ->
  (n + List.length a <= int_max_str_digits)%nat ->
  (k + List.length b <= int_max_str_digits)%nat ->
  parse_line (steps, weights)
    ((repeat zero_char n ++ a) ++ comma :: (repeat zero_char k ++ b)) =
  parse_line (steps, weights) (a ++ comma :: b).
Proof.
  intros Ha Hb Hda Hdb La Lb.
  rewrite (parse_line_pair steps weights a b Ha Hb Hda Hdb) by lia.
  rewrite parse_line_pair.
  - now rewrite !decimal_zeros.
  - destruct n; [exact Ha | discriminate].
  - destruct k; [exact Hb | discriminate].
  - now apply digits_zeros.
  - now apply digits_zeros.
  - rewrite length_app, repeat_length; exact La.
  - rewrite length_app, repeat_length; exact Lb.
Qed.

Lemma leading_zeros_ignored_witness :
  parse_line ([], []) ((repeat zero_char 2 ++ lit "7") ++
                       comma :: (repeat zero_char 1 ++ lit "42")) =
  parse_line ([], []) (lit "7" ++ comma :: lit "42").
Proof.
  apply (leading_zeros_ignored [] [] 2 1 (lit "7") (lit "42"));
    try reflexivity; try discriminate;
    apply Nat.leb_le; vm_compute; reflexivity.
Defined.

Lemma digit_val_range c : isdigit c = true -> 0 <= digit_val c <= 9.
Proof.
  unfold isdigit, digit_val; intros H.
  apply andb_true_iff in H; destruct H as [H1 H2].
  apply N.leb_le in H1, H2; lia.
Qed.

Lemma decimal_from_nonneg s : forall acc,
  forallb isdigit s = true -> 0 <= acc ->
  0 <= fold_left (fun acc c => 10 * acc + digit_val c) s acc.
Proof.
  induction s as [|c s IH]; cbn [fold_left forallb]; intros acc H Hacc;
    [exact Hacc|].
  apply andb_true_iff in H; destruct H as [Hc Hs].
  apply IH; [exact Hs|].
  pose proof (digit_val_range c Hc); lia.
Qed.

Lemma retained_sample_nonneg content l :
  In l (retained content) ->
  0 <= fst (sample_of l) /\ 0 <= snd (sample_of l).
Proof.
  unfold retained; intros H; apply filter_In in H; destruct H as [Hin G].
  apply in_map_iff in Hin; destruct Hin as (line & <- & _).
  apply guard_iff_pattern in G.
  destruct G as (a & b & E & Ha & Hb & Hda & Hdb).
  rewrite E, (sample_of_pair a b Hda); unfold decimal, fst, snd; split.
  - apply decimal_from_nonneg; [exact Hda | lia].
  - apply decimal_from_nonneg; [exact Hdb | lia].
Qed.

(** X4: every step and every weight returned by [parse_data] is a
    non-negative integer. *)
Theorem samples_nonnegative (content : str) (steps weights : list Z) :
  parse_data content = inr (steps, weights) ->
  Forall (fun z => 0 <= z) steps /\ Forall (fun z => 0 <= z) weights.
Proof.
  intros H; destruct (parse_data_inr _ _ _ H) as (_ & -> & ->).
  split; apply Forall_forall; intros z Hz;
    apply in_map_iff in Hz; destruct Hz as (l & <- & Hl);
    apply (retained_sample_nonneg content l Hl).
Qed.

Lemma samples_nonnegative_witness :
  Forall (fun z => 0 <= z) [1; 2; 3; 4] /\
  Forall (fun z => 0 <= z) [1; 2; 3; 4].
Proof.
  apply (samples_nonnegative scenario_B).
  vm_compute; reflexivity.
Defined.

(** ** Newlines and concatenation of files *)

Lemma universal_newlines_cons_other c s :
  Ascii.eqb c CR = false ->
  universal_newlines (c :: s) = c :: universal_newlines s.
Proof. intros H; simpl; now rewrite H. Qed.

Lemma universal_newlines_cr_lf s :
  universal_newlines (CR :: LF :: s) = LF :: universal_newlines s.
Proof. reflexivity. Qed.

Lemma universal_newlines_cr_other c s :
  Ascii.eqb c LF = false ->
  universal_newlines (CR :: c :: s) = LF :: universal_newlines (c :: s).
Proof.
  intros H.
  change (universal_newlines (CR :: c :: s))
    with (LF :: (if Ascii.eqb c LF then universal_newlines s
                 else universal_newlines (c :: s))).
  now rewrite H.
Qed.

(** An induction principle that follows the recursion of
    [universal_newlines]: one character at a time, two for a CR LF. *)
Lemma newline_induction (P : list ascii -> Prop) :
  P [] ->
  P [CR] ->
  (forall c s, Ascii.eqb c CR = false -> P s -> P (c :: s)) ->
  (forall s, P s -> P (CR :: LF :: s)) ->
  (forall c s, Ascii.eqb c LF = false -> P (c :: s) -> P (CR :: c :: s)) ->
  forall s, P s.
Proof.
  intros Hnil Hcr Hother Hcrlf Hcrx.
  assert (H : forall n s, (List.length s <= n)%nat -> P s).
  { induction n as [|n IH]; intros s Hlen.
    - destruct s; [exact Hnil | simpl in Hlen; lia].
    - destruct s as [|c s]; [exact Hnil|].
      simpl in Hlen.
      destruct (Ascii.eqb c CR) eqn:Ec.
      + apply Ascii.eqb_eq in Ec; subst c.
        destruct s as [|c' s]; [exact Hcr|].
        simpl in Hlen.
        destruct (Ascii.eqb c' LF) eqn:El.
        * apply Ascii.eqb_eq in El; subst c'.
          apply Hcrlf, IH; lia.
        * apply Hcrx; [exact El|].
          apply IH; simpl; lia.
      + apply Hother; [exact Ec|].
        apply IH; lia. }
  intros s; exact (H (List.length s) s (Nat.le_refl _)).
Qed.

Lemma universal_newlines_app_lf a : forall b,
  universal_newlines (a ++ LF :: b) =
  universal_newlines (a ++ [LF]) ++ universal_newlines b.
Proof.
  induction a using newline_induction; intros b.
  - reflexivity.
  - reflexivity.
  - rewrite <- !app_comm_cons.
    rewrite !universal_newlines_cons_other by assumption.
    now rewrite IHa.
  - rewrite <- !app_comm_cons, !universal_newlines_cr_lf.
    now rewrite IHa.
  - rewrite <- !app_comm_cons.
    rewrite !universal_newlines_cr_other by assumption.
    rewrite !app_comm_cons; now rewrite IHa.
Qed.

Lemma universal_newlines_snoc_lf a :
  exists x, universal_newlines (a ++ [LF]) = x ++ [LF].
Proof.
  induction a using newline_induction.
  - exists []; reflexivity.
  - exists []; reflexivity.
  - destruct IHa as [x Hx]; exists (c :: x).
    rewrite <- !app_comm_cons.
    rewrite universal_newlines_cons_other by assumption.
    now rewrite Hx.
  - destruct IHa as [x Hx]; exists (LF :: x).
    rewrite <- !app_comm_cons, universal_newlines_cr_lf; now rewrite Hx.
  - destruct IHa as [x Hx]; exists (LF :: x).
    rewrite <- !app_comm_cons.
    rewrite universal_newlines_cr_other by assumption.
    rewrite app_comm_cons; now rewrite Hx.
Qed.

Lemma lines_from_app_lf x : forall cur y,
  lines_from cur (x ++ LF :: y) =
  lines_from cur (x ++ [LF]) ++ lines_from [] y.
Proof.
  induction x as [|c x IH]; intros cur y.
  - reflexivity.
  - simpl; destruct (Ascii.eqb c LF).
    + now rewrite IH.
    + apply IH.
Qed.

Lemma file_lines_app_lf c1 c2 :
  file_lines ((c1 ++ [LF]) ++ c2) = file_lines (c1 ++ [LF]) ++ file_lines c2.
Proof.
  unfold file_lines.
  rewrite <- app_assoc; simpl app.
  rewrite universal_newlines_app_lf.
  destruct (universal_newlines_snoc_lf c1) as [x Hx]; rewrite Hx.
  rewrite <- app_assoc; simpl app.
  apply lines_from_app_lf.
Qed.

(** X5: a file that ends with a line feed can be continued: the series of
    the concatenation of two files is the series of the first followed by
    the series of the second. *)
Theorem parse_data_concatenation
  (c1 c2 : str) (s1 w1 s2 w2 : list Z) :
  parse_data (c1 ++ [LF]) = inr (s1, w1) ->
  parse_data c2 = inr (s2, w2) ->
  parse_data ((c1 ++ [LF]) ++ c2) = inr (s1 ++ s2, w1 ++ w2).
Proof.
  intros H1 H2.
  destruct (parse_data_inr _ _ _ H1) as (W1 & -> & ->).
  destruct (parse_data_inr _ _ _ H2) as (W2 & -> & ->).
  rewrite parse_data_spec.
  change (retained ((c1 ++ [LF]) ++ c2))
    with (kept (file_lines ((c1 ++ [LF]) ++ c2))).
  rewrite file_lines_app_lf, kept_app, forallb_app, !map_app.
  change (kept (file_lines (c1 ++ [LF]))) with (retained (c1 ++ [LF])).
  change (kept (file_lines c2)) with (retained c2).
  now rewrite W1, W2.
Qed.

Lemma parse_data_concatenation_witness :
  parse_data ((lit "1,10" ++ [LF]) ++ lit "x
2,20") = inr ([1] ++ [2], [10] ++ [20]).
Proof.
  apply (parse_data_concatenation (lit "1,10") (lit "x
2,20")); vm_compute; reflexivity.
Defined.

Lemma universal_newlines_no_cr s :
  ~ In CR s -> universal_newlines s = s.
Proof.
  induction s as [|c s IH]; intros H; [reflexivity|].
  assert (Hc : Ascii.eqb c CR = false).
  { apply Ascii.eqb_neq; intros ->; apply H; left; reflexivity. }
  rewrite (universal_newlines_cons_other c s Hc), IH; [reflexivity|].
  intros Hin; apply H; right; exact Hin.
Qed.

Lemma universal_newlines_crlf s :
  ~ In CR s -> universal_newlines (crlf s) = s.
Proof.
  induction s as [|c s IH]; intros H; [reflexivity|].
  assert (Hc : Ascii.eqb c CR = false).
  { apply Ascii.eqb_neq; intros ->; apply H; left; reflexivity. }
  assert (Hs : ~ In CR s) by (intros Hin; apply H; right; exact Hin).
  simpl crlf; destruct (Ascii.eqb c LF) eqn:E.
  - apply Ascii.eqb_eq in E; subst c.
    now rewrite universal_newlines_cr_lf, (IH Hs).
  - now rewrite (universal_newlines_cons_other c _ Hc), (IH Hs).
Qed.

Lemma universal_newlines_cr_only s :
  ~ In CR s -> universal_newlines (cr_only s) = s.
Proof.
  induction s as [|c s IH]; intros H; [reflexivity|].
  assert (Hc : Ascii.eqb c CR = false).
  { apply Ascii.eqb_neq; intros ->; apply H; left; reflexivity. }
  assert (Hs : ~ In CR s) by (intros Hin; apply H; right; exact Hin).
  simpl cr_only; destruct (Ascii.eqb c LF) eqn:E.
  - apply Ascii.eqb_eq in E; subst c.
    destruct s as [|d s]; [reflexivity|].
    assert (Hd : Ascii.eqb d CR = false).
    { apply Ascii.eqb_neq; intros ->; apply Hs; left; reflexivity. }
    specialize (IH Hs); simpl cr_only in IH |- *.
    destruct (Ascii.eqb d LF) eqn:Ed.
    + rewrite universal_newlines_cr_other by reflexivity.
      now rewrite IH.
    + rewrite universal_newlines_cr_other by exact Ed.
      now rewrite IH.
  - now rewrite (universal_newlines_cons_other c _ Hc), (IH Hs).
Qed.

(** X6: the newline convention of the file does not matter.  A text whose
    lines end in LF, the same text with CR LF line ends and the same text
    with lone CR line ends give the same lines, hence the same series and
    the same run of [main]. *)
Theorem newline_convention_irrelevant
  (linregress : list Z -> list Z -> result (float * float)) (s : str) :
  ~ In CR s ->
  file_lines (crlf s) = file_lines s /\
  file_lines (cr_only s) = file_lines s /\
  parse_data (crlf s) = parse_data s /\
  parse_data (cr_only s) = parse_data s /\
  main linregress (crlf s) = main linregress s /\
  main linregress (cr_only s) = main linregress s.
Proof.
  intros H.
  assert (E1 : file_lines (crlf s) = file_lines s).
  { unfold file_lines.
    now rewrite (universal_newlines_crlf s H), (universal_newlines_no_cr s H). }
  assert (E2 : file_lines (cr_only s) = file_lines s).
  { unfold file_lines.
    now rewrite (universal_newlines_cr_only s H),
      (universal_newlines_no_cr s H). }
  assert (P1 : parse_data (crlf s) = parse_data s)
    by (unfold parse_data; now rewrite E1).
  assert (P2 : parse_data (cr_only s) = parse_data s)
    by (unfold parse_data; now rewrite E2).
  repeat split; auto; unfold main; now rewrite ?P1, ?P2.
Qed.

Lemma newline_convention_irrelevant_witness :
  file_lines (crlf scenario_B) = file_lines scenario_B /\
  file_lines (cr_only scenario_B) = file_lines scenario_B /\
  parse_data (crlf scenario_B) = parse_data scenario_B /\
  parse_data (cr_only scenario_B) = parse_data scenario_B /\
  main spec_linregress (crlf scenario_B) = main spec_linregress scenario_B /\
  main spec_linregress (cr_only scenario_B) = main spec_linregress scenario_B.
Proof.
  apply (newline_convention_irrelevant spec_linregress scenario_B).
  intros H; vm_compute in H; intuition discriminate.
Defined.

(** ** How a run of main can end *)


(** X8: the image is written exactly when [main] returns: a run that
    returns ends with the one and only [savefig], to
    error_stability_proof.png at 300 dpi, followed by the line that names
    the file; a run that stops (a failing conversion, no data, a failing
    plot or a failing regression) has written no image. *)
Theorem image_written_iff_returned
  (linregress : list Z -> list Z -> result (float * float)) (content : str) :
  (snd (main linregress content) = inr tt ->
   exists evs,
     events (main linregress content) =
     evs ++ [PltSavefig output_file 300; Print saved_line] /\
     filter is_savefig evs = []) /\
  (snd (main linregress content) <> inr tt ->
   filter is_savefig (events (main linregress content)) = []).
Proof.
  destruct (parse_data content) as [e | [steps weights]] eqn:Hp.
  { rewrite (main_parse_raises _ _ _ Hp).
    split; [discriminate | reflexivity]. }
  destruct steps as [|x steps'] eqn:Es.
  { rewrite (main_no_data _ _ _ Hp).
    split; [discriminate | reflexivity]. }
  assert (Hs : x :: steps' <> []) by discriminate.
  destruct (plottable (x :: steps') weights) eqn:Hf.
  2: { rewrite (main_plot_raises _ _ _ _ Hp Hs Hf).
       split; [discriminate | reflexivity]. }
  destruct (linregress (x :: steps') weights) as [e | [slope intercept]] eqn:Hl.
  - rewrite (main_regression_raises _ _ _ _ _ Hp Hs Hf Hl).
    split; [discriminate | reflexivity].
  - destruct (max_nonempty weights (parse_data_nonempty _ _ _ Hp Hs))
      as (m & Hm & _).
    rewrite (main_full_run _ _ _ _ _ _ _ Hp Hs Hf Hl Hm).
    split; [intros _ | intros N; exfalso; apply N; reflexivity].
    exists (Print parsing_notice :: Print (count_line (x :: steps'))
              :: raw_plot (x :: steps') weights
              ++ Print (slope_line slope) :: Print (intercept_line intercept)
              :: trend_plot (x :: steps') slope intercept
              ++ [verdict_label (x :: steps') m (verdict slope);
                  Print (verdict_line (verdict slope))]).
    split; reflexivity.
Qed.

Lemma image_written_iff_returned_witness :
  filter is_savefig (events (main spec_linregress single_sample)) = [].
Proof.
  apply (proj2 (image_written_iff_returned spec_linregress single_sample)).
  vm_compute; discriminate.
Defined.

(** X9: the verdict depends on the magnitude of the slope only: a slope and
    its opposite get the same verdict, so a decreasing trend of magnitude
    0.01 or more is reported as growth too. *)
Theorem verdict_sign_irrelevant (slope : float) (steps weights : list Z) :
  verdict (SFopp slope) = verdict slope /\
  stdout (hypothesis_check steps weights (SFopp slope)) =
  stdout (hypothesis_check steps weights slope).
Proof.
  assert (A : SFabs (SFopp slope) = SFabs slope) by (destruct slope; reflexivity).
  assert (T : abs_lt_threshold (SFopp slope) = abs_lt_threshold slope)
    by (unfold abs_lt_threshold; now rewrite A).
  split.
  - unfold verdict; now rewrite T.
  - unfold hypothesis_check; now rewrite T.
Qed.

(** ** Where the characters of a retained line come from *)

Lemma universal_newlines_in c s :
  In c (universal_newlines s) -> c = LF \/ In c s.
Proof.
  induction s as [| |d s Hd IH|s IH|d s Hd IH] using newline_induction;
    intros Hin.
  - contradiction.
  - destruct Hin as [<- | []]; auto.
  - rewrite universal_newlines_cons_other in Hin by assumption.
    destruct Hin as [<- | Hin]; [right; left; reflexivity|].
    destruct (IH Hin); auto; right; right; assumption.
  - rewrite universal_newlines_cr_lf in Hin.
    destruct Hin as [<- | Hin]; [auto|].
    destruct (IH Hin); auto; right; right; right; assumption.
  - rewrite universal_newlines_cr_other in Hin by assumption.
    destruct Hin as [<- | Hin]; [auto|].
    destruct (IH Hin); auto; right; right; assumption.
Qed.

Lemma lines_from_in c s : forall cur l,
  In l (lines_from cur s) -> In c l -> In c cur \/ In c s \/ c = LF.
Proof.
  induction s as [|d s IH]; intros cur l Hl Hc.
  - simpl in Hl; destruct cur; [contradiction|].
    destruct Hl as [<- | []]; auto.
  - simpl in Hl; destruct (Ascii.eqb d LF) eqn:E.
    + destruct Hl as [<- | Hl].
      * apply in_app_or in Hc; destruct Hc as [Hc | [<- | []]]; auto.
      * destruct (IH _ _ Hl Hc) as [[] | [H | H]]; auto.
        right; left; right; exact H.
    + destruct (IH _ _ Hl Hc) as [H | [H | H]]; auto.
      * apply in_app_or in H; destruct H as [H | [<- | []]]; auto.
        right; left; left; reflexivity.
      * right; left; right; exact H.
Qed.

Lemma lstrip_in c s : In c (lstrip s) -> In c s.
Proof.
  induction s as [|d s IH]; simpl; [auto|].
  destruct (isspace d); auto.
Qed.

Lemma strip_in c s : In c (strip s) -> In c s.
Proof.
  unfold strip, rstrip; intros H.
  apply in_rev, lstrip_in in H.
  rewrite <- in_rev in H; exact (lstrip_in _ _ H).
Qed.

Lemma retained_chars content l c :
  In l (retained content) -> In c l -> c = LF \/ In c content.
Proof.
  unfold retained, file_lines; intros Hl Hc.
  apply filter_In in Hl; destruct Hl as [Hl _].
  apply in_map_iff in Hl; destruct Hl as (line & <- & Hline).
  apply strip_in in Hc.
  destruct (lines_from_in c _ _ _ Hline Hc) as [[] | [H | H]]; auto.
  apply universal_newlines_in; exact H.
Qed.

(** X10: there is no data without a comma and digits in the file: when the
    content holds no comma, or no digit, [parse_data] returns two empty
    sequences and [main] takes the exit with code 1. *)
Theorem no_comma_or_no_digit_no_data
  (linregress : list Z -> list Z -> result (float * float)) (content : str) :
  ~ In comma content \/ (forall c, In c content -> isdigit c = false) ->
  parse_data content = inr ([], []) /\
  main linregress content = no_data_run.
Proof.
  intros H.
  assert (R : retained content = []).
  { destruct (retained content) as [|l r] eqn:E; [reflexivity|exfalso].
    assert (Hl : In l (retained content)) by (rewrite E; left; reflexivity).
    pose proof Hl as G.
    unfold retained in G; apply filter_In in G; destruct G as [Hin G].
    apply in_map_iff in Hin; destruct Hin as (line & <- & _).
    apply guard_iff_pattern in G.
    destruct G as (a & b & El & Ha & Hb & Hda & Hdb).
    destruct H as [Hno | Hno].
    - apply Hno.
      destruct (retained_chars content (strip line) comma Hl) as [N | Hc].
      + rewrite El; apply in_or_app; right; left; reflexivity.
      + discriminate N.
      + exact Hc.
    - destruct a as [|d a]; [congruence|].
      simpl in Hda; apply andb_true_iff in Hda; destruct Hda as [Hd _].
      destruct (retained_chars content (strip line) d Hl) as [N | Hc].
      + rewrite El; left; reflexivity.
      + subst d; discriminate Hd.
      + rewrite (Hno d Hc) in Hd; discriminate. }
  assert (Hp : parse_data content = inr ([], []))
    by (rewrite parse_data_spec, R; reflexivity).
  split; [exact Hp|].
  exact (main_no_data linregress content [] Hp).
Qed.

Lemma no_comma_or_no_digit_no_data_witness :
  parse_data (lit "step weight
1 2
") = inr ([], []) /\
  main spec_linregress (lit "step weight
1 2
") = no_data_run.
Proof.
  apply (no_comma_or_no_digit_no_data spec_linregress).
  left; intros H; vm_compute in H; intuition discriminate.
Defined.

(** ** Lines that are not samples *)

Lemma lstrip_app s t :
  lstrip (s ++ t) = if forallb isspace s then lstrip t else lstrip s ++ t.
Proof.
  induction s as [|c s IH]; simpl; [reflexivity|].
  destruct (isspace c); simpl; [exact IH | reflexivity].
Qed.

Lemma lstrip_all_space s : forallb isspace s = true -> lstrip s = [].
Proof.
  induction s as [|c s IH]; simpl; [reflexivity|].
  intros H; apply andb_true_iff in H; destruct H as [Hc Hs].
  rewrite Hc; exact (IH Hs).
Qed.

(** A trailing white-space character, such as the line terminator, does not
    survive [strip]. *)
Lemma strip_snoc_space s c : isspace c = true -> strip (s ++ [c]) = strip s.
Proof.
  intros Hc; unfold strip, rstrip; rewrite lstrip_app.
  destruct (forallb isspace s) eqn:E.
  - rewrite (lstrip_all_space s E); simpl; now rewrite Hc.
  - rewrite rev_app_distr; simpl; now rewrite Hc.
Qed.

Lemma lines_from_no_lf s : forall cur,
  ~ In LF s -> lines_from cur (s ++ [LF]) = [cur ++ s ++ [LF]].
Proof.
  induction s as [|c s IH]; intros cur H.
  - reflexivity.
  - assert (Hc : Ascii.eqb c LF = false).
    { apply Ascii.eqb_neq; intros ->; apply H; left; reflexivity. }
    simpl; rewrite Hc, IH, <- app_assoc; [reflexivity|].
    intros Hin; apply H; right; exact Hin.
Qed.

Lemma file_lines_single s :
  ~ In LF s -> ~ In CR s -> file_lines (s ++ [LF]) = [s ++ [LF]].
Proof.
  intros Hlf Hcr; unfold file_lines.
  rewrite universal_newlines_no_cr.
  - exact (lines_from_no_lf s [] Hlf).
  - intros H; apply in_app_or in H; destruct H as [H | [H | []]];
      [contradiction | discriminate H].
Qed.

(** X11: a line that is not a sample is transparent: inserted at the
    beginning of a file, or after any complete line of it, it leaves the
    extracted series unchanged. *)
Theorem noise_line_transparent (c1 noise c2 : str) :
  ~ In LF noise -> ~ In CR noise ->
  ~ digits_comma_digits (strip noise) ->
  parse_data ((noise ++ [LF]) ++ c2) = parse_data c2 /\
  parse_data ((c1 ++ [LF]) ++ (noise ++ [LF]) ++ c2) =
  parse_data ((c1 ++ [LF]) ++ c2).
Proof.
  intros Hlf Hcr Hn.
  assert (K : kept (file_lines (noise ++ [LF])) = []).
  { rewrite (file_lines_single noise Hlf Hcr); unfold kept; simpl.
    rewrite (strip_snoc_space noise LF eq_refl).
    destruct (re_match pattern (strip noise)) eqn:G; [|reflexivity].
    apply guard_iff_pattern in G; contradiction. }
  split.
  - rewrite !parse_data_spec.
    change (retained ((noise ++ [LF]) ++ c2))
      with (kept (file_lines ((noise ++ [LF]) ++ c2))).
    change (retained c2) with (kept (file_lines c2)).
    now rewrite file_lines_app_lf, kept_app, K.
  - rewrite !parse_data_spec.
    change (retained ((c1 ++ [LF]) ++ (noise ++ [LF]) ++ c2))
      with (kept (file_lines ((c1 ++ [LF]) ++ (noise ++ [LF]) ++ c2))).
    change (retained ((c1 ++ [LF]) ++ c2))
      with (kept (file_lines ((c1 ++ [LF]) ++ c2))).
    now rewrite !file_lines_app_lf, !kept_app, K.
Qed.

Lemma noise_line_transparent_witness :
  parse_data ((lit "-1,2 is no sample" ++ [LF]) ++ lit "3,4") =
  parse_data (lit "3,4") /\
  parse_data ((lit "1,2" ++ [LF]) ++ (lit "-1,2 is no sample" ++ [LF])
              ++ lit "3,4") =
  parse_data ((lit "1,2" ++ [LF]) ++ lit "3,4").
Proof.
  apply (noise_line_transparent (lit "1,2") (lit "-1,2 is no sample")
           (lit "3,4")).
  - intros H; vm_compute in H; intuition discriminate.
  - intros H; vm_compute in H; intuition discriminate.
  - intros H; apply pair_line_spec in H; vm_compute in H; discriminate.
Defined.

Lemma digits_no_char a (d : ascii) :
  isdigit d = false -> forallb isdigit a = true -> ~ In d a.
Proof.
  intros Hd Ha Hin; rewrite forallb_forall in Ha.
  rewrite (Ha d Hin) in Hd; discriminate.
Qed.

Lemma pair_no_char a b (d : ascii) :
  isdigit d = false -> d <> comma ->
  forallb isdigit a = true -> forallb isdigit b = true ->
  ~ In d (a ++ comma :: b).
Proof.
  intros Hd Hc Hda Hdb H; apply in_app_or in H.
  destruct H as [H | [H | H]].
  - exact (digits_no_char a d Hd Hda H).
  - congruence.
  - exact (digits_no_char b d Hd Hdb H).
Qed.

(** X12: appending a sample line, with fields of at most 4300 digits, to a
    file that ends with a line feed appends exactly one point, the values
    of its two fields, at the end of the series. *)
Theorem appended_sample_extends_series
  (c1 a b : str) (s1 w1 : list Z) :
  parse_data (c1 ++ [LF]) = inr (s1, w1) ->
  a <> [] -> b <> [] ->
  forallb isdigit a = true -> forallb isdigit b = true ->
  (List.length a <= int_max_str_digits)%nat ->
  (List.length b <= int_max_str_digits)%nat ->
  parse_data ((c1 ++ [LF]) ++ (a ++ comma :: b) ++ [LF]) =
  inr (s1 ++ [decimal a], w1 ++ [decimal b]).
Proof.
  intros H1 Ha Hb Hda Hdb La Lb.
  destruct (parse_data_inr _ _ _ H1) as (W1 & -> & ->).
  rewrite parse_data_spec.
  change (retained ((c1 ++ [LF]) ++ (a ++ comma :: b) ++ [LF]))
    with (kept (file_lines ((c1 ++ [LF]) ++ (a ++ comma :: b) ++ [LF]))).
  rewrite file_lines_app_lf, kept_app, forallb_app, !map_app.
  change (kept (file_lines (c1 ++ [LF]))) with (retained (c1 ++ [LF])).
  rewrite W1, (file_lines_single (a ++ comma :: b)).
  - unfold kept; cbn [map].
    rewrite (strip_snoc_space _ LF eq_refl).
    pose proof (strip_padded_pair [] [] a b eq_refl eq_refl Ha Hb Hda Hdb) as S.
    simpl in S; rewrite app_nil_r in S; rewrite S.
    assert (G : re_match pattern (a ++ comma :: b) = true).
    { rewrite <- S; apply guard_iff_pattern; rewrite S; exists a, b; auto. }
    cbn [filter]; rewrite G; cbn [map forallb].
    now rewrite (within_limit_ok a b Hda La Lb), (sample_of_pair a b Hda).
  - apply pair_no_char; auto; discriminate.
  - apply pair_no_char; auto; discriminate.
Qed.

Lemma appended_sample_extends_series_witness :
  parse_data ((lit "1,10" ++ [LF]) ++ (lit "2" ++ comma :: lit "20") ++ [LF]) =
  inr ([1] ++ [decimal (lit "2")], [10] ++ [decimal (lit "20")]).
Proof.
  apply (appended_sample_extends_series (lit "1,10") (lit "2") (lit "20"));
    try reflexivity; try discriminate;
    apply Nat.leb_le; vm_compute; reflexivity.
Defined.
